(** * FaultyTerminalWithLogo: the logo ticker, the frame loop and the shader

  A shallow embedding of [src/app/FaultyTerminalWithLogo.tsx]:
  the [LogoLoop] ticker (target velocity, tile count, per-frame
  [animate]), the per-frame [update] of the terminal surface (clock,
  page-load ramp, pointer smoothing), the overlay rasterizer
  [updateLogoTexture] and the GLSL fragment shader.

  Numbers.  A JavaScript [number] and a GLSL [float] are both modelled
  as a real number: every value is finite and arithmetic is exact, so
  rounding, NaN and the infinities are outside the model.  [Math.*]
  functions and the GLSL built-ins are defined from their reference
  definitions over [R]. *)

From Stdlib Require Import Reals Lra Lia List ZArith Bool Sorted Ascii String.
Import ListNotations.

#[local] Open Scope R_scope.

(** ** JavaScript arithmetic *)

Module JS.

Definition number := R.

Definition Math_abs (x : number) : number := Rabs x.
Definition Math_max (x y : number) : number := Rmax x y.
Definition Math_min (x y : number) : number := Rmin x y.
Definition Math_ceil (x : number) : number := IZR (Zceil x).
Definition Math_exp (x : number) : number := exp x.

(** Rounding toward zero, the quotient that [%] uses. *)
Definition trunc (x : number) : number :=
  if Rle_dec 0 x then IZR (Zfloor x) else IZR (Zceil x).

(** [a % n]: the remainder has the sign of the dividend [a].
    ([n = 0] gives NaN in JavaScript; every use below is guarded by
    [n > 0].) *)
Definition rem (a n : number) : number := a - n * trunc (a / n).

(** [x ?? d] on a possibly missing measurement. *)
Definition nullish (x : option number) (d : number) : number :=
  match x with Some v => v | None => d end.

End JS.

(** ** The LogoLoop ticker *)

Module LogoLoop.
Import JS.

(** [direction?: 'left' | 'right'] *)
Inductive Direction := Left | Right.

(** [ANIMATION_CONFIG] *)
Definition SMOOTH_TAU : number := 0.25.
Definition MIN_COPIES : number := 2.
Definition COPY_HEADROOM : number := 2.

Definition targetVelocity (speed : number) (direction : Direction) : number :=
  let magnitude := Math_abs speed in
  let directionMultiplier := match direction with Left => 1 | Right => -1 end in
  let speedMultiplier := if Rlt_dec speed 0 then -1 else 1 in
  magnitude * directionMultiplier * speedMultiplier.

(** React state set by [updateDimensions]. *)
Record Dimensions := mkDimensions {
  seqWidth : number;
  copyCount : number
}.

Definition initialDimensions : Dimensions :=
  {| seqWidth := 0; copyCount := MIN_COPIES |}.

(** [clientWidth] is the measured container width and [rectWidth] the
    measured width of the first copy of the sequence; each is [None]
    when its ref is not attached. *)
Definition updateDimensions (clientWidth rectWidth : option number)
    (d : Dimensions) : Dimensions :=
  let containerWidth := nullish clientWidth 0 in
  let sequenceWidth := nullish rectWidth 0 in
  if Rgt_dec sequenceWidth 0 then
    let copiesNeeded := Math_ceil (containerWidth / sequenceWidth) + COPY_HEADROOM in
    {| seqWidth := Math_ceil sequenceWidth;
       copyCount := Math_max MIN_COPIES copiesNeeded |}
  else d.

(** The refs the animation effect reads and writes, with the
    horizontal translation last written to [track.style.transform]. *)
Record Refs := mkRefs {
  lastTimestampRef : option number;
  offsetRef : number;
  velocityRef : number;
  trackX : number
}.

Definition initialRefs : Refs :=
  {| lastTimestampRef := None; offsetRef := 0; velocityRef := 0; trackX := 0 |}.

(** [((x % seqWidth) + seqWidth) % seqWidth] *)
Definition wrap (x seqWidth : number) : number :=
  rem (rem x seqWidth + seqWidth) seqWidth.

(** Body of the animation effect before the first frame is requested,
    for a track element that is attached (without one the effect
    returns at once and no frame is ever requested). *)
Definition effectStart (seqWidth : number) (r : Refs) : Refs :=
  if Rgt_dec seqWidth 0 then
    let offset := wrap (offsetRef r) seqWidth in
    {| lastTimestampRef := lastTimestampRef r;
       offsetRef := offset;
       velocityRef := velocityRef r;
       trackX := - offset |}
  else r.

(** The effect's cleanup. *)
Definition effectCleanup (r : Refs) : Refs :=
  {| lastTimestampRef := None;
     offsetRef := offsetRef r;
     velocityRef := velocityRef r;
     trackX := trackX r |}.

(** [deltaTime] of a frame, in seconds. *)
Definition deltaTime (timestamp : number) (r : Refs) : number :=
  let last := match lastTimestampRef r with
              | None => timestamp
              | Some l => l
              end in
  Math_max 0 (timestamp - last) / 1000.

(** One animation frame; [target] and [seqWidth] are the values the
    effect closed over. *)
Definition animate (target seqWidth : number) (timestamp : number)
    (r : Refs) : Refs :=
  let deltaTime := deltaTime timestamp r in
  let easingFactor := 1 - Math_exp (- deltaTime / SMOOTH_TAU) in
  let velocity := velocityRef r + (target - velocityRef r) * easingFactor in
  if Rgt_dec seqWidth 0 then
    let nextOffset := offsetRef r + velocity * deltaTime in
    let nextOffset := wrap nextOffset seqWidth in
    {| lastTimestampRef := Some timestamp;
       offsetRef := nextOffset;
       velocityRef := velocity;
       trackX := - nextOffset |}
  else
    {| lastTimestampRef := Some timestamp;
       offsetRef := offsetRef r;
       velocityRef := velocity;
       trackX := trackX r |}.

(** What can happen to a mounted ticker whose sequence width stays
    the same: a frame callback at a timestamp, or a change of the
    target velocity, which cleans the effect up and starts it again. *)
Inductive Event :=
| Frame (timestamp : number)
| Retarget (target : number).

(** The running loop: the closed-over target and the refs. *)
Definition Loop := (number * Refs)%type.

Definition step (seqWidth : number) (l : Loop) (e : Event) : Loop :=
  match e with
  | Frame t => (fst l, animate (fst l) seqWidth t (snd l))
  | Retarget target' => (target', effectStart seqWidth (effectCleanup (snd l)))
  end.

(** The loop after each event, in order. *)
Fixpoint trace (seqWidth : number) (l : Loop) (es : list Event) : list Loop :=
  match es with
  | [] => []
  | e :: es' => let l' := step seqWidth l e in l' :: trace seqWidth l' es'
  end.

(** Frames only, under one target. *)
Fixpoint frames (target seqWidth : number) (ts : list number) (r : Refs) : Refs :=
  match ts with
  | [] => r
  | t :: ts' => frames target seqWidth ts' (animate target seqWidth t r)
  end.

(** Sum of the [deltaTime]s of a run of frames. *)
Fixpoint totalDelta (last : option number) (ts : list number) : number :=
  match ts with
  | [] => 0
  | t :: ts' =>
      Math_max 0 (t - match last with None => t | Some l => l end) / 1000
      + totalDelta (Some t) ts'
  end.

End LogoLoop.

(** ** GLSL built-ins over the reals *)

Module GLSL.

Definition vec2 := (R * R)%type.
Definition vec3 := (R * R * R)%type.
Definition vec4 := (R * R * R * R)%type.

(** A [mat2] holds its two columns, as the constructor
    [mat2(a, b, c, d)] fills them: first column [(a, b)], second
    column [(c, d)]. *)
Record mat2 := mkMat2 { m00 : R; m01 : R; m10 : R; m11 : R }.

Definition floor (x : R) : R := IZR (Zfloor x).
Definition fract (x : R) : R := x - floor x.
Definition mod_ (x y : R) : R := x - y * floor (x / y).
Definition step (edge x : R) : R := if Rlt_dec x edge then 0 else 1.
Definition clamp (x lo hi : R) : R := Rmin (Rmax x lo) hi.
Definition smoothstep (e0 e1 x : R) : R :=
  let t := clamp ((x - e0) / (e1 - e0)) 0 1 in
  t * t * (3 - 2 * t).

Definition vx (v : vec2) : R := fst v.
Definition vy (v : vec2) : R := snd v.

Definition vadd (a b : vec2) : vec2 := (vx a + vx b, vy a + vy b).
Definition vsub (a b : vec2) : vec2 := (vx a - vx b, vy a - vy b).
Definition vmul (a b : vec2) : vec2 := (vx a * vx b, vy a * vy b).
Definition vdiv (a b : vec2) : vec2 := (vx a / vx b, vy a / vy b).
Definition vscale (a : vec2) (k : R) : vec2 := (vx a * k, vy a * k).
Definition vadds (a : vec2) (k : R) : vec2 := (vx a + k, vy a + k).
Definition vsubs (a : vec2) (k : R) : vec2 := (vx a - k, vy a - k).
Definition vfloor (a : vec2) : vec2 := (floor (vx a), floor (vy a)).
Definition vfract (a : vec2) : vec2 := (fract (vx a), fract (vy a)).
Definition dot (a b : vec2) : R := vx a * vx b + vy a * vy b.
Definition length (a : vec2) : R := sqrt (dot a a).
Definition distance (a b : vec2) : R := length (vsub a b).

(** [m * v] *)
Definition mulmv (m : mat2) (v : vec2) : vec2 :=
  (m00 m * vx v + m10 m * vy v, m01 m * vx v + m11 m * vy v).

Definition red (c : vec3) : R := fst (fst c).
Definition green (c : vec3) : R := snd (fst c).
Definition blue (c : vec3) : R := snd c.
Definition rgb (c : vec4) : vec3 := fst c.
Definition alpha (c : vec4) : R := snd c.

Definition v3scale (c : vec3) (k : R) : vec3 := (red c * k, green c * k, blue c * k).
Definition v3add (a b : vec3) : vec3 :=
  (red a + red b, green a + green b, blue a + blue b).
Definition v3mul (a b : vec3) : vec3 :=
  (red a * red b, green a * green b, blue a * blue b).
Definition v3adds (c : vec3) (k : R) : vec3 := (red c + k, green c + k, blue c + k).
Definition v3splat (k : R) : vec3 := (k, k, k).

(** [mix(x, y, a)] *)
Definition mix3 (x y : vec3) (a : R) : vec3 :=
  v3add (v3scale x (1 - a)) (v3scale y a).

Definition sampler2D := vec2 -> vec4.

End GLSL.

(** ** The terminal surface: props, refs, uniforms *)

Module Terminal.
Import JS GLSL.

(** [dither?: number | boolean] *)
Inductive Dither := DitherFlag (b : bool) | DitherAmount (x : number).

Definition ditherValue (dither : Dither) : number :=
  match dither with
  | DitherFlag b => if b then 1 else 0
  | DitherAmount x => x
  end.

(** The props the effect closes over ([tintVec] is the tint already
    converted by [hexToRgb]). *)
Record Props := mkProps {
  scale : number;
  gridMul : vec2;
  digitSize : number;
  timeScale : number;
  pause : bool;
  scanlineIntensity : number;
  glitchAmount : number;
  flickerAmount : number;
  noiseAmp : number;
  chromaticAberration : number;
  dither : Dither;
  curvature : number;
  tintVec : vec3;
  mouseReact : bool;
  mouseStrength : number;
  dpr : number;
  pageLoadAnimation : bool;
  brightness : number
}.

(** The component's refs that [update] and the pointer handler use;
    they outlive a re-run of the effect. *)
Record Refs := mkRefs {
  mouseRef : vec2;
  smoothMouseRef : vec2;
  frozenTimeRef : number;
  loadAnimationStartRef : number;
  timeOffsetRef : number
}.

(** [timeOffset] is the random phase drawn once per component. *)
Definition initialRefs (timeOffset : number) : Refs :=
  {| mouseRef := (0.5, 0.5);
     smoothMouseRef := (0.5, 0.5);
     frozenTimeRef := 0;
     loadAnimationStartRef := 0;
     timeOffsetRef := timeOffset * 100 |}.

(** The handle stored in the [uLogoTexture] uniform; the pixels it
    names live in the GL state. *)
Inductive WebGLTexture := LogoTexture.

(** [program.uniforms] *)
Record Uniforms := mkUniforms {
  iTime : number;
  iResolution : vec3;
  uScale : number;
  uGridMul : vec2;
  uDigitSize : number;
  uScanlineIntensity : number;
  uGlitchAmount : number;
  uFlickerAmount : number;
  uNoiseAmp : number;
  uChromaticAberration : number;
  uDither : number;
  uCurvature : number;
  uTint : vec3;
  uMouse : vec2;
  uMouseStrength : number;
  uUseMouse : number;
  uPageLoadProgress : number;
  uUsePageLoadAnimation : number;
  uBrightness : number;
  uLogoTexture : option WebGLTexture;
  uLogoHeight : number;
  uHasLogo : number
}.

(** [new Program(gl, { ..., uniforms })] for a canvas of the given
    size. *)
Definition createProgram (P : Props) (r : Refs) (canvasWidth canvasHeight : number)
    (logoTexture : option WebGLTexture) : Uniforms :=
  {| iTime := 0;
     iResolution := (canvasWidth, canvasHeight, canvasWidth / canvasHeight);
     uScale := scale P;
     uGridMul := gridMul P;
     uDigitSize := digitSize P;
     uScanlineIntensity := scanlineIntensity P;
     uGlitchAmount := glitchAmount P;
     uFlickerAmount := flickerAmount P;
     uNoiseAmp := noiseAmp P;
     uChromaticAberration := chromaticAberration P;
     uDither := ditherValue (dither P);
     uCurvature := curvature P;
     uTint := tintVec P;
     uMouse := smoothMouseRef r;
     uMouseStrength := mouseStrength P;
     uUseMouse := if mouseReact P then 1 else 0;
     uPageLoadProgress := if pageLoadAnimation P then 0 else 1;
     uUsePageLoadAnimation := if pageLoadAnimation P then 1 else 0;
     uBrightness := brightness P;
     uLogoTexture := logoTexture;
     uLogoHeight := 0.15;
     uHasLogo := 1 |}.

Definition set_iTime (v : number) (u : Uniforms) : Uniforms :=
  mkUniforms v (iResolution u) (uScale u) (uGridMul u) (uDigitSize u)
    (uScanlineIntensity u) (uGlitchAmount u) (uFlickerAmount u) (uNoiseAmp u)
    (uChromaticAberration u) (uDither u) (uCurvature u) (uTint u) (uMouse u)
    (uMouseStrength u) (uUseMouse u) (uPageLoadProgress u)
    (uUsePageLoadAnimation u) (uBrightness u) (uLogoTexture u) (uLogoHeight u)
    (uHasLogo u).

Definition set_iResolution (v : vec3) (u : Uniforms) : Uniforms :=
  mkUniforms (iTime u) v (uScale u) (uGridMul u) (uDigitSize u)
    (uScanlineIntensity u) (uGlitchAmount u) (uFlickerAmount u) (uNoiseAmp u)
    (uChromaticAberration u) (uDither u) (uCurvature u) (uTint u) (uMouse u)
    (uMouseStrength u) (uUseMouse u) (uPageLoadProgress u)
    (uUsePageLoadAnimation u) (uBrightness u) (uLogoTexture u) (uLogoHeight u)
    (uHasLogo u).

Definition set_uMouse (v : vec2) (u : Uniforms) : Uniforms :=
  mkUniforms (iTime u) (iResolution u) (uScale u) (uGridMul u) (uDigitSize u)
    (uScanlineIntensity u) (uGlitchAmount u) (uFlickerAmount u) (uNoiseAmp u)
    (uChromaticAberration u) (uDither u) (uCurvature u) (uTint u) v
    (uMouseStrength u) (uUseMouse u) (uPageLoadProgress u)
    (uUsePageLoadAnimation u) (uBrightness u) (uLogoTexture u) (uLogoHeight u)
    (uHasLogo u).

Definition set_uUseMouse (v : number) (u : Uniforms) : Uniforms :=
  mkUniforms (iTime u) (iResolution u) (uScale u) (uGridMul u) (uDigitSize u)
    (uScanlineIntensity u) (uGlitchAmount u) (uFlickerAmount u) (uNoiseAmp u)
    (uChromaticAberration u) (uDither u) (uCurvature u) (uTint u) (uMouse u)
    (uMouseStrength u) v (uPageLoadProgress u)
    (uUsePageLoadAnimation u) (uBrightness u) (uLogoTexture u) (uLogoHeight u)
    (uHasLogo u).

Definition set_uPageLoadProgress (v : number) (u : Uniforms) : Uniforms :=
  mkUniforms (iTime u) (iResolution u) (uScale u) (uGridMul u) (uDigitSize u)
    (uScanlineIntensity u) (uGlitchAmount u) (uFlickerAmount u) (uNoiseAmp u)
    (uChromaticAberration u) (uDither u) (uCurvature u) (uTint u) (uMouse u)
    (uMouseStrength u) (uUseMouse u) v
    (uUsePageLoadAnimation u) (uBrightness u) (uLogoTexture u) (uLogoHeight u)
    (uHasLogo u).

(** [resize()], as far as the uniforms go: the canvas has been given
    its new size. *)
Definition resizeUniforms (canvasWidth canvasHeight : number) (u : Uniforms)
    : Uniforms :=
  set_iResolution (canvasWidth, canvasHeight, canvasWidth / canvasHeight) u.

(** The pointer handler: [rect] is the container's bounding box
    [(left, top, width, height)]. *)
Definition handleMouseMove (clientX clientY : number)
    (rect : number * number * number * number) (r : Refs) : Refs :=
  let '(rectLeft, rectTop, width, height) := rect in
  let x := (clientX - rectLeft) / width in
  let y := 1 - (clientY - rectTop) / height in
  mkRefs (x, y) (smoothMouseRef r) (frozenTimeRef r) (loadAnimationStartRef r)
    (timeOffsetRef r).

(** The state one run of the effect works on. *)
Record Surface := mkSurface {
  refs : Refs;
  uniforms : Uniforms
}.

(** One frame callback [update(t)], up to the draw call. *)
Definition update (P : Props) (t : number) (s : Surface) : Surface :=
  let r := refs s in
  let u := uniforms s in
  (* if (pageLoadAnimation && loadAnimationStartRef.current === 0) *)
  let start :=
    if pageLoadAnimation P && (if Req_dec_T (loadAnimationStartRef r) 0 then true else false)
    then t else loadAnimationStartRef r in
  (* if (!pause) ... else ... *)
  let '(u, frozen) :=
    if negb (pause P) then
      let elapsed := (t * 0.001 + timeOffsetRef r) * timeScale P in
      (set_iTime elapsed u, elapsed)
    else
      (set_iTime (frozenTimeRef r) u, frozenTimeRef r) in
  (* if (pageLoadAnimation && loadAnimationStartRef.current > 0) *)
  let u :=
    if pageLoadAnimation P && (if Rgt_dec start 0 then true else false) then
      let animationDuration := 2000 in
      let animationElapsed := t - start in
      let progress := Math_min (animationElapsed / animationDuration) 1 in
      set_uPageLoadProgress progress u
    else u in
  (* if (mouseReact) *)
  let '(u, smooth) :=
    if mouseReact P then
      let dampingFactor := 0.08 in
      let smoothMouse := smoothMouseRef r in
      let mouse := mouseRef r in
      let sx := vx smoothMouse + (vx mouse - vx smoothMouse) * dampingFactor in
      let sy := vy smoothMouse + (vy mouse - vy smoothMouse) * dampingFactor in
      (set_uMouse (sx, sy) u, (sx, sy))
    else (u, smoothMouseRef r) in
  {| refs := mkRefs (mouseRef r) smooth frozen start (timeOffsetRef r);
     uniforms := u |}.

(** A change of props re-runs the effect: the program is created
    again with fresh uniforms, the refs are kept. *)
Definition remount (P : Props) (canvasWidth canvasHeight : number) (s : Surface)
    : Surface :=
  {| refs := refs s;
     uniforms := createProgram P (refs s) canvasWidth canvasHeight (Some LogoTexture) |}.

Definition mount (P : Props) (timeOffset canvasWidth canvasHeight : number) : Surface :=
  {| refs := initialRefs timeOffset;
     uniforms := createProgram P (initialRefs timeOffset) canvasWidth canvasHeight
                   (Some LogoTexture) |}.

(** The surfaces after each of a run of frame callbacks. *)
Fixpoint updates (P : Props) (ts : list number) (s : Surface) : list Surface :=
  match ts with
  | [] => []
  | t :: ts' => let s' := update P t s in s' :: updates P ts' s'
  end.

(** The surface after a run of frame callbacks. *)
Fixpoint runUpdates (P : Props) (ts : list number) (s : Surface) : Surface :=
  match ts with
  | [] => s
  | t :: ts' => runUpdates P ts' (update P t s)
  end.

(** The props with the [pause] flag replaced. *)
Definition with_pause (b : bool) (P : Props) : Props :=
  mkProps (scale P) (gridMul P) (digitSize P) (timeScale P) b
    (scanlineIntensity P) (glitchAmount P) (flickerAmount P) (noiseAmp P)
    (chromaticAberration P) (dither P) (curvature P) (tintVec P)
    (mouseReact P) (mouseStrength P) (dpr P) (pageLoadAnimation P)
    (brightness P).

(** Props with one value overridden by the caller. *)
Definition with_glitchAmount (v : number) (P : Props) : Props :=
  mkProps (scale P) (gridMul P) (digitSize P) (timeScale P) (pause P)
    (scanlineIntensity P) v (flickerAmount P) (noiseAmp P)
    (chromaticAberration P) (dither P) (curvature P) (tintVec P)
    (mouseReact P) (mouseStrength P) (dpr P) (pageLoadAnimation P)
    (brightness P).

Definition with_curvature (v : number) (P : Props) : Props :=
  mkProps (scale P) (gridMul P) (digitSize P) (timeScale P) (pause P)
    (scanlineIntensity P) (glitchAmount P) (flickerAmount P) (noiseAmp P)
    (chromaticAberration P) (dither P) v (tintVec P)
    (mouseReact P) (mouseStrength P) (dpr P) (pageLoadAnimation P)
    (brightness P).

Definition with_mouseStrength (v : number) (P : Props) : Props :=
  mkProps (scale P) (gridMul P) (digitSize P) (timeScale P) (pause P)
    (scanlineIntensity P) (glitchAmount P) (flickerAmount P) (noiseAmp P)
    (chromaticAberration P) (dither P) (curvature P) (tintVec P)
    (mouseReact P) v (dpr P) (pageLoadAnimation P)
    (brightness P).

(** The component's default props, for a device pixel ratio; the
    default tint [#00ff88] is [(0, 255, 136) / 255]. *)
Definition defaultProps (dpr : number) : Props :=
  {| scale := 1;
     gridMul := (2, 1);
     digitSize := 1.5;
     timeScale := 0.3;
     pause := false;
     scanlineIntensity := 0.3;
     glitchAmount := 1;
     flickerAmount := 1;
     noiseAmp := 1;
     chromaticAberration := 0;
     dither := DitherAmount 0;
     curvature := 0.2;
     tintVec := (0 / 255, 255 / 255, 136 / 255);
     mouseReact := true;
     mouseStrength := 0.2;
     dpr := dpr;
     pageLoadAnimation := true;
     brightness := 1 |}.

(** The two values of the page-load ramp held by a surface. *)
Definition pageLoadProgress (s : Surface) : number := uPageLoadProgress (uniforms s).
Definition pageLoadStart (s : Surface) : number := loadAnimationStartRef (refs s).

(** The first timestamp of a run that is not [0]: the one [update]
    records as the start of the page-load animation ([0] while none
    has been seen). *)
Fixpoint firstNonzero (ts : list number) : number :=
  match ts with
  | [] => 0
  | t :: ts' => if Req_dec_T t 0 then firstNonzero ts' else t
  end.

End Terminal.

(** ** The fragment shader *)

Module Shader.
Import JS GLSL Terminal.

Section Fragment.
Variable U : Uniforms.
(** The global [float time], assigned at the start of [main]. *)
Variable time : R.

Definition hash21 (p : vec2) : R :=
  let p := vfract (vscale p 234.56) in
  let p := vadds p (dot p (vadds p 34.56)) in
  fract (vx p * vy p).

Definition noise (p : vec2) : R :=
  sin (vx p * 10) * sin (vy p * (3 + sin (time * 0.090909))) + 0.2.

Definition rotate (angle : R) : mat2 :=
  let c := cos angle in
  let s := sin angle in
  mkMat2 c (- s) s c.

Definition fbm (p : vec2) : R :=
  let p := vscale p 1.1 in
  let f := 0 in
  let amp := 0.5 * uNoiseAmp U in
  let modify0 := rotate (time * 0.02) in
  let f := f + amp * noise p in
  let p := vscale (mulmv modify0 p) 2 in
  let amp := amp * 0.454545 in
  let modify1 := rotate (time * 0.02) in
  let f := f + amp * noise p in
  let p := vscale (mulmv modify1 p) 2 in
  let amp := amp * 0.454545 in
  let modify2 := rotate (time * 0.08) in
  let f := f + amp * noise p in
  f.

(** [pattern(p, out q, out r)]: the result with the two outputs. *)
Definition pattern (p : vec2) : R * vec2 * vec2 :=
  let offset1 : vec2 := (1, 1) in
  let offset0 : vec2 := (0, 0) in
  let rot01 := rotate (0.1 * time) in
  let rot1 := rotate 0.1 in
  let q := (fbm (vadd p offset1), fbm (vadd (mulmv rot01 p) offset1)) in
  let r := (fbm (vadd (mulmv rot1 q) offset0), fbm (vadd q offset0)) in
  (fbm (vadd p r), q, r).

(** [mouseInfluence] of the cell [s], as [digit] computes it in
    its pointer block. *)
Definition mouseInfluence (s : vec2) : R :=
  let mouseWorld := vscale (uMouse U) (uScale U) in
  let distToMouse := distance s mouseWorld in
  exp (- distToMouse * 8) * uMouseStrength U * 10.

(** [ripple] of the cell [s], from the same block. *)
Definition ripple (s : vec2) : R :=
  let mouseWorld := vscale (uMouse U) (uScale U) in
  let distToMouse := distance s mouseWorld in
  sin (distToMouse * 20 - iTime U * 5) * 0.1 * mouseInfluence s.

(** The pointer block of [digit]: [if (uUseMouse > 0.5) { ... }]. *)
Definition digit_mouse (s : vec2) (intensity : R) : R :=
  if Rgt_dec (uUseMouse U) 0.5 then
    let intensity := intensity + mouseInfluence s in
    let intensity := intensity + ripple s in
    intensity
  else intensity.

(** The page-load block of [digit]:
    [if (uUsePageLoadAnimation > 0.5) { ... }]. *)
Definition digit_pageLoad (s : vec2) (intensity : R) : R :=
  if Rgt_dec (uUsePageLoadAnimation U) 0.5 then
    let cellRandom := fract (sin (dot s (12.9898, 78.233)) * 43758.5453) in
    let cellDelay := cellRandom * 0.8 in
    let cellProgress := clamp ((uPageLoadProgress U - cellDelay) / 0.2) 0 1 in
    let fadeAlpha := smoothstep 0 1 cellProgress in
    intensity * fadeAlpha
  else intensity.

(** The rest of [digit]: the dot-matrix glyph of one cell, from the
    scaled coordinate [p] and the cell's intensity. *)
Definition digit_glyph (p : vec2) (intensity : R) : R :=
  let p := vfract p in
  let p := vscale p (uDigitSize U) in
  let px5 := vx p * 5 in
  let py5 := (1 - vy p) * 5 in
  let x := fract px5 in
  let y := fract py5 in
  let i := floor py5 - 2 in
  let j := floor px5 - 2 in
  let n := i * i + j * j in
  let f := n * 0.0625 in
  let isOn := step 0.1 (intensity - f) in
  let brightness := isOn * (0.2 + y * 0.8) * (0.75 + x * 0.25) in
  step 0 (vx p) * step (vx p) 1 * step 0 (vy p) * step (vy p) 1 * brightness.

Definition digit (p : vec2) : R :=
  let grid := vscale (uGridMul U) 15 in
  let s := vdiv (vfloor (vmul p grid)) grid in
  let p := vmul p grid in
  let intensity := fst (fst (pattern (vscale s 0.1))) * 1.3 - 0.03 in
  let intensity := digit_mouse s intensity in
  let intensity := digit_pageLoad s intensity in
  digit_glyph p intensity.

Definition onOff (a b c : R) : R :=
  step c (sin (iTime U + a * cos (iTime U * b))) * uFlickerAmount U.

Definition displace (look : vec2) : R :=
  let y := vy look - mod_ (iTime U * 0.25) 1 in
  let window := 1 / (1 + 50 * y * y) in
  sin (vy look * 20 + iTime U) * 0.0125 * onOff 4 2 0.8
    * (1 + cos (iTime U * 60)) * window.

(** The coordinate [getColor] samples at: [p] after its
    displacement block. *)
Definition getColor_displaced (p : vec2) : vec2 :=
  let displacement := displace p in
  let p := (vx p + displacement, vy p) in
  if Req_dec_T (uGlitchAmount U) 1 then p
  else
    let extra := displacement * (uGlitchAmount U - 1) in
    (vx p + extra, vy p).

Definition getColor (p : vec2) : vec3 :=
  let bar := step (mod_ (vy p + time * 20) 1) 0.2 * 0.4 + 1 in
  let bar := bar * uScanlineIntensity U in
  let p := getColor_displaced p in
  let middle := digit p in
  let off := 0.002 in
  let sum :=
    digit (vadd p (- off, - off)) + digit (vadd p (0, - off))
    + digit (vadd p (off, - off)) + digit (vadd p (- off, 0))
    + digit (vadd p (0, 0)) + digit (vadd p (off, 0))
    + digit (vadd p (- off, off)) + digit (vadd p (0, off))
    + digit (vadd p (off, off)) in
  let baseColor :=
    v3add (v3scale (v3splat 0.9) middle)
          (v3scale (v3scale (v3splat 1) (sum * 0.1)) bar) in
  baseColor.

Definition barrel (uv : vec2) : vec2 :=
  let c := vsubs (vscale uv 2) 1 in
  let r2 := dot c c in
  let c := vscale c (1 + uCurvature U * r2) in
  vadds (vscale c 0.5) 0.5.

(** [uv] in [main] after [if (uCurvature != 0.0) uv = barrel(uv)]. *)
Definition main_uv (vUv : vec2) : vec2 :=
  let uv := vUv in
  if Req_dec_T (uCurvature U) 0 then uv else barrel uv.

(** [logoUv] in the overlay branch of [main]. *)
Definition main_logoUv (vUv uv : vec2) : vec2 :=
  let logoUv := uv in
  if Req_dec_T (uCurvature U) 0 then logoUv else barrel (vx vUv, vy vUv).

End Fragment.

(** [main]: the colour written to [gl_FragColor] for the fragment
    with varying [vUv] at [gl_FragCoord], with [logoTexture] the
    sampler bound to [uLogoTexture]. *)
Definition main (U : Uniforms) (logoTexture : sampler2D)
    (vUv gl_FragCoord : vec2) : vec4 :=
  let time := iTime U * 0.333333 in
  let uv := main_uv U vUv in
  let p := vscale uv (uScale U) in
  let col := getColor U time p in
  let col :=
    if Rgt_dec (uHasLogo U) 0.5 then
      if Rgt_dec (vy uv) (1 - uLogoHeight U) then
        let logoUv := main_logoUv U vUv uv in
        let logoY := (vy logoUv - (1 - uLogoHeight U)) / uLogoHeight U in
        let logoTexCoord := (vx logoUv, 1 - logoY) in
        let displacement := displace U p * 0.5 in
        let logoTexCoord := (vx logoTexCoord + displacement, vy logoTexCoord) in
        let logoColor := logoTexture logoTexCoord in
        mix3 col (rgb logoColor) (alpha logoColor)
      else col
    else col in
  let col :=
    if Req_dec_T (uChromaticAberration U) 0 then col
    else
      let ca := vdiv (uChromaticAberration U, uChromaticAberration U)
                     (fst (fst (iResolution U)), snd (fst (iResolution U))) in
      (red (getColor U time (vadd p ca)), green col,
       blue (getColor U time (vsub p ca))) in
  let col := v3mul col (uTint U) in
  let col := v3scale col (uBrightness U) in
  let col :=
    if Rgt_dec (uDither U) 0 then
      let rnd := hash21 gl_FragCoord in
      v3adds col ((rnd - 0.5) * (uDither U * 0.003922))
    else col in
  (col, 1).

End Shader.

(** ** The overlay rasterizer *)

Module Rasterizer.
Import JS Terminal.

Section Raster.
(** What [XMLSerializer] produces for the logo container. *)
Variable Markup : Type.
(** The pixels of a canvas or of a texture. *)
Variable Bitmap : Type.

(** The logo container as a tick sees it: its bounding box and its
    serialized content. *)
Record Element := mkElement {
  rectWidth : number;
  rectHeight : number;
  content : Markup
}.

(** An image whose [src] has been set and whose [onload] has not
    run yet, with what its handler closed over. *)
Record Capture := mkCapture {
  capData : Markup;
  capWidth : number;
  capHeight : number;
  canvasWidth : number;
  canvasHeight : number;
  capScale : number
}.

(** What decoding a capture and drawing it into its canvas gives. *)
Variable drawImage : Capture -> Bitmap.

(** The GL state that matters here: the pixels of the logo
    texture, and how many times [texImage2D] ran. *)
Record Gl := mkGl {
  textureData : option Bitmap;
  texImage2DCalls : nat
}.

Record World := mkWorld {
  gl : Gl;
  pendingImages : list Capture
}.

(** How a call ends. *)
Inductive Completion :=
| Normal (w : World)
| Throw.

(** [updateLogoTexture()]: [context2d] tells whether
    [canvas.getContext('2d')] returns a context on this tick.  On the
    path with a context the calls are taken to succeed, and the canvas
    size is kept as the exact product [rect * dpr] (the DOM stores it
    as a whole number). *)
Definition updateLogoTexture (dpr : number) (logoCtn : option Element)
    (logoTexture : option WebGLTexture) (context2d : bool) (w : World)
    : Completion :=
  match logoCtn, logoTexture with
  | Some el, Some _ =>
      let canvasW := rectWidth el * dpr in
      let canvasH := rectHeight el * dpr in
      if context2d then
        let data := content el in
        let img := mkCapture data (rectWidth el) (rectHeight el)
                     canvasW canvasH dpr in
        Normal {| gl := gl w; pendingImages := pendingImages w ++ [img] |}
      else Normal w
  | _, _ => Normal w
  end.

Fixpoint removeAt {A : Type} (i : nat) (l : list A) : list A :=
  match l, i with
  | [], _ => []
  | _ :: l', O => l'
  | x :: l', S i' => x :: removeAt i' l'
  end.

(** [img.onload] of the [i]-th pending image, for a handler whose
    [drawImage] and [texImage2D] succeed. *)
Definition imageLoaded (i : nat) (w : World) : World :=
  match nth_error (pendingImages w) i with
  | Some img =>
      {| gl := {| textureData := Some (drawImage img);
                  texImage2DCalls := S (texImage2DCalls (gl w)) |};
         pendingImages := removeAt i (pendingImages w) |}
  | None => w
  end.

(** The pixels a draw call samples through [uLogoTexture]. *)
Definition sampledTexture (w : World) : option Bitmap := textureData (gl w).

Inductive Event :=
| Tick (logoCtn : option Element) (context2d : bool)
| Loaded (i : nat)
| Draw.

(** A tick whose drawing context is missing. *)
Definition failedTick (e : Event) : bool :=
  match e with
  | Tick _ false => true
  | _ => false
  end.

Definition isDraw (e : Event) : bool :=
  match e with Draw => true | _ => false end.

Definition step (dpr : number) (logoTexture : option WebGLTexture)
    (w : World) (e : Event) : Completion :=
  match e with
  | Tick logoCtn context2d => updateLogoTexture dpr logoCtn logoTexture context2d w
  | Loaded i => Normal (imageLoaded i w)
  | Draw => Normal w
  end.

(** Runs the events in order; gives the final world and, oldest
    first, what each draw call sampled, or [None] if a call threw. *)
Fixpoint run (dpr : number) (logoTexture : option WebGLTexture)
    (w : World) (es : list Event) : option (World * list (option Bitmap)) :=
  match es with
  | [] => Some (w, [])
  | e :: es' =>
      match step dpr logoTexture w e with
      | Throw => None
      | Normal w' =>
          match run dpr logoTexture w' es' with
          | None => None
          | Some (wf, seen) =>
              Some (wf, if isDraw e then sampledTexture w' :: seen else seen)
          end
      end
  end.

End Raster.

Arguments mkElement {Markup} rectWidth rectHeight content.
Arguments mkCapture {Markup} capData capWidth capHeight canvasWidth canvasHeight capScale.
Arguments mkGl {Bitmap} textureData texImage2DCalls.
Arguments mkWorld {Markup Bitmap} gl pendingImages.
Arguments textureData {Bitmap} g.
Arguments texImage2DCalls {Bitmap} g.
Arguments capData {Markup} c.
Arguments content {Markup} e.
Arguments gl {Markup Bitmap} w.
Arguments pendingImages {Markup Bitmap} w.
Arguments updateLogoTexture {Markup Bitmap} dpr logoCtn logoTexture context2d w.
Arguments imageLoaded {Markup Bitmap} drawImage i w.
Arguments sampledTexture {Markup Bitmap} w.
Arguments failedTick {Markup} e.
Arguments isDraw {Markup} e.
Arguments step {Markup Bitmap} drawImage dpr logoTexture w e.
Arguments run {Markup Bitmap} drawImage dpr logoTexture w es.
Arguments Normal {Markup Bitmap} w.
Arguments Throw {Markup Bitmap}.
Arguments Tick {Markup} logoCtn context2d.
Arguments Loaded {Markup} i.
Arguments Draw {Markup}.

End Rasterizer.

(** ** The clock as the specification words it *)

Module SpecClock.
Import JS.

(** Follows the specification's words, not the source:
    [advance(wallDeltaSeconds, timeScale, paused)], where an
    unpaused call adds [wallDeltaSeconds * timeScale] to the elapsed
    time and remembers it as the frozen snapshot, and a paused call
    returns the frozen snapshot unchanged. *)
Record ClockState := mkClock {
  elapsed : number;
  frozen : number
}.

Definition advance (wallDeltaSeconds timeScale : number) (paused : bool)
    (c : ClockState) : ClockState * number :=
  if paused then (c, frozen c)
  else
    let e := elapsed c + wallDeltaSeconds * timeScale in
    ({| elapsed := e; frozen := e |}, e).

End SpecClock.

(** ** Runs of measurements, and variants of props and uniforms *)

Module Runs.
Import JS.

(** [updateDimensions] called once per observed size change, with the
    measurements it reads each time. *)
Fixpoint measures (ms : list (option number * option number))
    (d : LogoLoop.Dimensions) : LogoLoop.Dimensions :=
  match ms with
  | [] => d
  | (clientWidth, rectWidth) :: ms' =>
      measures ms' (LogoLoop.updateDimensions clientWidth rectWidth d)
  end.

(** The ticker's sizes are well formed: a whole number of copies, at
    least two, and a width that is [0] or a whole number of pixels, at
    least one. *)
Definition dimensions_ok (d : LogoLoop.Dimensions) : Prop :=
  (exists k : Z, LogoLoop.copyCount d = IZR k /\ (2 <= k)%Z)
  /\ (exists n : Z, LogoLoop.seqWidth d = IZR n /\ (n = 0 \/ 1 <= n)%Z).

(** The uniforms with the three values [update] writes blanked out. *)
Definition staticUniforms (u : Terminal.Uniforms) : Terminal.Uniforms :=
  Terminal.set_iTime 0
    (Terminal.set_uPageLoadProgress 0 (Terminal.set_uMouse (0, 0) u)).

(** A surface with its clock blanked out: the frozen snapshot and
    [iTime]. *)
Definition clockless (s : Terminal.Surface) : Terminal.Surface :=
  {| Terminal.refs :=
       Terminal.mkRefs (Terminal.mouseRef (Terminal.refs s))
         (Terminal.smoothMouseRef (Terminal.refs s)) 0
         (Terminal.loadAnimationStartRef (Terminal.refs s))
         (Terminal.timeOffsetRef (Terminal.refs s));
     Terminal.uniforms := Terminal.set_iTime 0 (Terminal.uniforms s) |}.

(** Uniform tables that differ from [u] in one switch. *)
Definition set_uUsePageLoadAnimation (v : number) (u : Terminal.Uniforms)
    : Terminal.Uniforms :=
  Terminal.mkUniforms (Terminal.iTime u) (Terminal.iResolution u)
    (Terminal.uScale u) (Terminal.uGridMul u) (Terminal.uDigitSize u)
    (Terminal.uScanlineIntensity u) (Terminal.uGlitchAmount u)
    (Terminal.uFlickerAmount u) (Terminal.uNoiseAmp u)
    (Terminal.uChromaticAberration u) (Terminal.uDither u)
    (Terminal.uCurvature u) (Terminal.uTint u) (Terminal.uMouse u)
    (Terminal.uMouseStrength u) (Terminal.uUseMouse u)
    (Terminal.uPageLoadProgress u) v (Terminal.uBrightness u)
    (Terminal.uLogoTexture u) (Terminal.uLogoHeight u) (Terminal.uHasLogo u).

Definition set_uDither (v : number) (u : Terminal.Uniforms) : Terminal.Uniforms :=
  Terminal.mkUniforms (Terminal.iTime u) (Terminal.iResolution u)
    (Terminal.uScale u) (Terminal.uGridMul u) (Terminal.uDigitSize u)
    (Terminal.uScanlineIntensity u) (Terminal.uGlitchAmount u)
    (Terminal.uFlickerAmount u) (Terminal.uNoiseAmp u)
    (Terminal.uChromaticAberration u) v
    (Terminal.uCurvature u) (Terminal.uTint u) (Terminal.uMouse u)
    (Terminal.uMouseStrength u) (Terminal.uUseMouse u)
    (Terminal.uPageLoadProgress u) (Terminal.uUsePageLoadAnimation u)
    (Terminal.uBrightness u)
    (Terminal.uLogoTexture u) (Terminal.uLogoHeight u) (Terminal.uHasLogo u).

Definition set_uHasLogo (v : number) (u : Terminal.Uniforms) : Terminal.Uniforms :=
  Terminal.mkUniforms (Terminal.iTime u) (Terminal.iResolution u)
    (Terminal.uScale u) (Terminal.uGridMul u) (Terminal.uDigitSize u)
    (Terminal.uScanlineIntensity u) (Terminal.uGlitchAmount u)
    (Terminal.uFlickerAmount u) (Terminal.uNoiseAmp u)
    (Terminal.uChromaticAberration u) (Terminal.uDither u)
    (Terminal.uCurvature u) (Terminal.uTint u) (Terminal.uMouse u)
    (Terminal.uMouseStrength u) (Terminal.uUseMouse u)
    (Terminal.uPageLoadProgress u) (Terminal.uUsePageLoadAnimation u)
    (Terminal.uBrightness u)
    (Terminal.uLogoTexture u) (Terminal.uLogoHeight u) v.

(** Two uniform tables that agree on everything [getColor] and the
    coordinate remap read. *)
Definition sameShading (U U' : Terminal.Uniforms) : Prop :=
  Terminal.iTime U = Terminal.iTime U'
  /\ Terminal.uScale U = Terminal.uScale U'
  /\ Terminal.uGridMul U = Terminal.uGridMul U'
  /\ Terminal.uDigitSize U = Terminal.uDigitSize U'
  /\ Terminal.uScanlineIntensity U = Terminal.uScanlineIntensity U'
  /\ Terminal.uGlitchAmount U = Terminal.uGlitchAmount U'
  /\ Terminal.uFlickerAmount U = Terminal.uFlickerAmount U'
  /\ Terminal.uNoiseAmp U = Terminal.uNoiseAmp U'
  /\ Terminal.uCurvature U = Terminal.uCurvature U'
  /\ Terminal.uMouse U = Terminal.uMouse U'
  /\ Terminal.uMouseStrength U = Terminal.uMouseStrength U'
  /\ Terminal.uUseMouse U = Terminal.uUseMouse U'
  /\ Terminal.uPageLoadProgress U = Terminal.uPageLoadProgress U'
  /\ Terminal.uUsePageLoadAnimation U = Terminal.uUsePageLoadAnimation U'.

(** Props with pointer reactivity switched on or off. *)
Definition with_mouseReact (b : bool) (P : Terminal.Props) : Terminal.Props :=
  Terminal.mkProps (Terminal.scale P) (Terminal.gridMul P) (Terminal.digitSize P)
    (Terminal.timeScale P) (Terminal.pause P) (Terminal.scanlineIntensity P)
    (Terminal.glitchAmount P) (Terminal.flickerAmount P) (Terminal.noiseAmp P)
    (Terminal.chromaticAberration P) (Terminal.dither P) (Terminal.curvature P)
    (Terminal.tintVec P) b (Terminal.mouseStrength P) (Terminal.dpr P)
    (Terminal.pageLoadAnimation P) (Terminal.brightness P).

(** Props with the flicker amount overridden by the caller. *)
Definition with_flickerAmount (v : number) (P : Terminal.Props) : Terminal.Props :=
  Terminal.mkProps (Terminal.scale P) (Terminal.gridMul P) (Terminal.digitSize P)
    (Terminal.timeScale P) (Terminal.pause P) (Terminal.scanlineIntensity P)
    (Terminal.glitchAmount P) v (Terminal.noiseAmp P)
    (Terminal.chromaticAberration P) (Terminal.dither P) (Terminal.curvature P)
    (Terminal.tintVec P) (Terminal.mouseReact P) (Terminal.mouseStrength P)
    (Terminal.dpr P) (Terminal.pageLoadAnimation P) (Terminal.brightness P).

(** The uniforms with the flicker amount replaced: with [0] the flicker
    gate is shut and nothing is displaced. *)
Definition set_uFlickerAmount (v : number) (u : Terminal.Uniforms)
    : Terminal.Uniforms :=
  Terminal.mkUniforms (Terminal.iTime u) (Terminal.iResolution u)
    (Terminal.uScale u) (Terminal.uGridMul u) (Terminal.uDigitSize u)
    (Terminal.uScanlineIntensity u) (Terminal.uGlitchAmount u)
    v (Terminal.uNoiseAmp u)
    (Terminal.uChromaticAberration u) (Terminal.uDither u)
    (Terminal.uCurvature u) (Terminal.uTint u) (Terminal.uMouse u)
    (Terminal.uMouseStrength u) (Terminal.uUseMouse u)
    (Terminal.uPageLoadProgress u) (Terminal.uUsePageLoadAnimation u)
    (Terminal.uBrightness u)
    (Terminal.uLogoTexture u) (Terminal.uLogoHeight u) (Terminal.uHasLogo u).

End Runs.

(** ** Small helpers: colours and class names *)

Module Util.
Import JS.
Local Open Scope string_scope.

(** Strings hold code units below 256. *)

(** [s.replace(c, '')] for a one-character pattern: the first
    occurrence goes. *)
Fixpoint removeFirst (c : ascii) (s : string) : string :=
  match s with
  | EmptyString => EmptyString
  | String x rest => if Ascii.eqb x c then rest else String x (removeFirst c rest)
  end.

(** White space and line terminators among the code units below 256:
    tab, line feed, vertical tab, form feed, carriage return, space and
    the no-break space. *)
Definition isWhiteSpace (c : ascii) : bool :=
  let n := nat_of_ascii c in
  ((9 <=? n) && (n <=? 13) || (n =? 32) || (n =? 160))%nat.

Fixpoint trimStart (s : string) : string :=
  match s with
  | EmptyString => EmptyString
  | String x rest => if isWhiteSpace x then trimStart rest else s
  end.

Fixpoint reverse (s acc : string) : string :=
  match s with
  | EmptyString => acc
  | String x rest => reverse rest (String x acc)
  end.

(** [s.trim()] *)
Definition trim (s : string) : string :=
  reverse (trimStart (reverse (trimStart s) EmptyString)) EmptyString.

(** [s.split('').map(c => c + c).join('')] *)
Fixpoint doubleEach (s : string) : string :=
  match s with
  | EmptyString => EmptyString
  | String x rest => String x (String x (doubleEach rest))
  end.

(** The value of a radix-16 digit. *)
Definition hexDigit (c : ascii) : option Z :=
  let n := Z.of_nat (nat_of_ascii c) in
  if ((48 <=? n) && (n <=? 57))%Z then Some (n - 48)%Z
  else if ((97 <=? n) && (n <=? 102))%Z then Some (n - 87)%Z
  else if ((65 <=? n) && (n <=? 70))%Z then Some (n - 55)%Z
  else None.

(** The value of the longest prefix of radix-16 digits, from [acc]. *)
Fixpoint digitsValue (s : string) (acc : Z) : Z :=
  match s with
  | EmptyString => acc
  | String x rest =>
      match hexDigit x with
      | Some v => digitsValue rest (acc * 16 + v)
      | None => acc
      end
  end.

Definition startsWithDigit (s : string) : bool :=
  match s with
  | String x _ => match hexDigit x with Some _ => true | None => false end
  | EmptyString => false
  end.

(** [parseInt(s, 16)]: leading white space, an optional sign, an
    optional [0x] or [0X], then the longest run of digits; [None] is
    NaN.  The integer is exact; JavaScript rounds it to a double, which
    changes nothing up to 13 digits. *)
Definition parseInt16 (s : string) : option Z :=
  let s := trimStart s in
  let '(sign, s) :=
    match s with
    | String "-" rest => ((-1)%Z, rest)
    | String "+" rest => (1%Z, rest)
    | _ => (1%Z, s)
    end in
  let s :=
    match s with
    | String "0" (String "x" rest) => rest
    | String "0" (String "X" rest) => rest
    | _ => s
    end in
  if startsWithDigit s then Some (sign * digitsValue s 0)%Z else None.

(** [ToInt32]: NaN becomes [0], an integer is taken modulo [2^32] into
    the signed range. *)
Definition toInt32 (n : option Z) : Z :=
  match n with
  | None => 0%Z
  | Some z => ((z + 2 ^ 31) mod 2 ^ 32 - 2 ^ 31)%Z
  end.

(** [(num >> k) & 255] *)
Definition channel (num : option Z) (k : Z) : Z :=
  Z.land (Z.shiftr (toInt32 num) k) 255.

Definition hexToRgb (hex : string) : number * number * number :=
  let h := trim (removeFirst "#" hex) in
  let h := if (String.length h =? 3)%nat then doubleEach h else h in
  let num := parseInt16 h in
  (IZR (channel num 16) / 255, IZR (channel num 8) / 255, IZR (channel num 0) / 255).





End Util.

(** * Properties *)

(** ** Remainder and rounding *)

Section RemFacts.
Import JS.

Lemma trunc_nonneg (x : R) : 0 <= x -> trunc x = IZR (Zfloor x).
Proof. intros H. unfold trunc. destruct (Rle_dec 0 x); [reflexivity | lra]. Qed.

Lemma trunc_neg (x : R) : x < 0 -> trunc x = IZR (Zceil x).
Proof. intros H. unfold trunc. destruct (Rle_dec 0 x); [lra | reflexivity]. Qed.

Lemma div_nonneg (a n : R) : 0 <= a -> 0 < n -> 0 <= a / n.
Proof.
  intros Ha Hn. unfold Rdiv. apply Rmult_le_pos; [assumption|].
  left. now apply Rinv_0_lt_compat.
Qed.

Lemma div_neg (a n : R) : a < 0 -> 0 < n -> a / n < 0.
Proof.
  intros Ha Hn. unfold Rdiv.
  assert (0 < / n) by now apply Rinv_0_lt_compat.
  nra.
Qed.

Lemma div_mul_cancel (a n : R) : 0 < n -> a = a / n * n.
Proof. intros Hn. field. lra. Qed.

(** The remainder of a non-negative dividend lies in [[0, n)]. *)
Lemma rem_nonneg_range (a n : R) : 0 <= a -> 0 < n -> 0 <= rem a n < n.
Proof.
  intros Ha Hn. unfold rem.
  rewrite trunc_nonneg by now apply div_nonneg.
  pose proof (Zfloor_bound (a / n)) as [Hlo Hhi].
  pose proof (div_mul_cancel a n Hn) as E.
  split; nra.
Qed.

(** Whatever the dividend, the remainder stays above [- n]. *)
Lemma rem_lower (a n : R) : 0 < n -> - n < rem a n.
Proof.
  intros Hn. destruct (Rle_lt_dec 0 a) as [Ha | Ha].
  - pose proof (rem_nonneg_range a n Ha Hn). lra.
  - unfold rem. rewrite trunc_neg by now apply div_neg.
    pose proof (Zceil_bound (a / n)) as [Hlo Hhi].
    pose proof (div_mul_cancel a n Hn) as E.
    nra.
Qed.

Lemma wrap_range (x n : R) : 0 < n -> 0 <= LogoLoop.wrap x n < n.
Proof.
  intros Hn. unfold LogoLoop.wrap.
  apply rem_nonneg_range; [| assumption].
  pose proof (rem_lower x n Hn). lra.
Qed.

End RemFacts.

(** ** The ticker *)

Section LogoLoopFacts.
Import JS LogoLoop.

(** [|speed|] times the sign of [speed] is [speed] again. *)
Lemma targetVelocity_value (speed : R) :
  targetVelocity speed Left = speed /\ targetVelocity speed Right = - speed.
Proof.
  unfold targetVelocity, Math_abs.
  destruct (Rlt_dec speed 0) as [Hneg | Hpos].
  - rewrite (Rabs_left speed Hneg). split; lra.
  - rewrite (Rabs_right speed) by lra. split; lra.
Qed.

(** C6.  The target velocity is [|speed|] times [+1] for ['left'] and
    [-1] for ['right'], times [-1] again when [speed] is negative; the
    signs multiply, so the velocity is [speed] itself for ['left'] and
    [- speed] for ['right'], and a negative speed with ['right'] gives
    a positive velocity. *)
Theorem targetVelocity_signs (speed : R) (direction : Direction) :
  targetVelocity speed direction
    = Rabs speed
      * (match direction with Left => 1 | Right => -1 end)
      * (if Rlt_dec speed 0 then -1 else 1)
  /\ targetVelocity speed Left = speed
  /\ targetVelocity speed Right = - speed
  /\ (speed < 0 -> targetVelocity speed Right = Rabs speed
                   /\ 0 < targetVelocity speed Right).
Proof.
  destruct (targetVelocity_value speed) as [HL HR].
  split; [reflexivity |]. split; [exact HL |]. split; [exact HR |].
  intros Hneg. rewrite HR, (Rabs_left speed Hneg). split; lra.
Qed.

Lemma targetVelocity_signs_witness :
  targetVelocity (-120) Right = Rabs (-120) /\ 0 < targetVelocity (-120) Right.
Proof.
  apply (targetVelocity_signs (-120) Right). lra.
Defined.

Lemma Math_ceil_bound (x : R) : Math_ceil x - 1 < x <= Math_ceil x.
Proof. unfold Math_ceil. apply Zceil_bound. Qed.

Lemma Math_ceil_eq (x : R) (z : Z) : IZR z - 1 < x <= IZR z -> Math_ceil x = IZR z.
Proof. intros H. unfold Math_ceil. now rewrite (Zceil_eq z x H). Qed.

(** C3.  With a measured sequence width [S > 0] and container width
    [C >= 0], [updateDimensions] sets the copy count to
    [k = max(2, ceil(C / S) + 2)]; [k >= 2] and [k * S >= C + S] (also
    for the rounded-up width it stores); for [S = 200] and [C = 500],
    [k = 5]. *)
Theorem copyCount_covers (C S : R) (d : Dimensions) :
  S > 0 -> C >= 0 ->
  let d' := updateDimensions (Some C) (Some S) d in
  let k := copyCount d' in
  k = Rmax 2 (Math_ceil (C / S) + 2)
  /\ k >= 2
  /\ k * S >= C + S
  /\ k * seqWidth d' >= C + seqWidth d'
  /\ (S = 200 -> C = 500 -> k = 5).
Proof.
  intros HS HC. unfold updateDimensions, nullish. cbn zeta.
  destruct (Rgt_dec S 0) as [_ | Hn]; [| contradiction].
  cbn [copyCount seqWidth].
  unfold Math_max, MIN_COPIES, COPY_HEADROOM.
  pose proof (Math_ceil_bound (C / S)) as [_ Hc].
  pose proof (Math_ceil_bound S) as [_ HW].
  pose proof (Rmax_l 2 (Math_ceil (C / S) + 2)) as H2.
  pose proof (Rmax_r 2 (Math_ceil (C / S) + 2)) as Hk.
  assert (E : C = C / S * S) by (apply div_mul_cancel; lra).
  set (k := Rmax 2 (Math_ceil (C / S) + 2)) in *.
  repeat split.
  - lra.
  - nra.
  - nra.
  - intros -> ->. subst k.
    rewrite (Math_ceil_eq (500 / 200) 3) by lra.
    rewrite Rmax_right; lra.
Qed.

Lemma copyCount_covers_witness :
  copyCount (updateDimensions (Some 500) (Some 200) initialDimensions) = 5.
Proof.
  apply (copyCount_covers 500 200 initialDimensions); lra.
Defined.

Lemma deltaTime_nonneg (t : R) (r : Refs) : 0 <= deltaTime t r.
Proof.
  unfold deltaTime, Math_max.
  match goal with |- 0 <= Rmax 0 ?x / 1000 => pose proof (Rmax_l 0 x) end.
  lra.
Qed.

Lemma animate_offset_range (target S t : R) (r : Refs) :
  0 < S -> 0 <= offsetRef (animate target S t r) < S.
Proof.
  intros HS. unfold animate.
  destruct (Rgt_dec S 0) as [_ | Hn]; [| unfold Rgt in Hn; lra].
  cbn [offsetRef]. now apply wrap_range.
Qed.

Lemma animate_trackX (target S t : R) (r : Refs) :
  0 < S -> trackX (animate target S t r) = - offsetRef (animate target S t r).
Proof.
  intros HS. unfold animate.
  destruct (Rgt_dec S 0) as [_ | Hn]; [| unfold Rgt in Hn; lra].
  reflexivity.
Qed.

Lemma effectStart_offset_range (S : R) (r : Refs) :
  0 < S ->
  0 <= offsetRef (effectStart S r) < S
  /\ trackX (effectStart S r) = - offsetRef (effectStart S r).
Proof.
  intros HS. unfold effectStart.
  destruct (Rgt_dec S 0) as [_ | Hn]; [| unfold Rgt in Hn; lra].
  cbn [offsetRef trackX]. split; [now apply wrap_range | reflexivity].
Qed.

(** The offset a frame leaves is the wrapped advance of the old one. *)
Lemma animate_offset_formula (target S t : R) (r : Refs) :
  0 < S ->
  offsetRef (animate target S t r)
  = rem (rem (offsetRef r + velocityRef (animate target S t r) * deltaTime t r) S + S) S.
Proof.
  intros HS. unfold animate.
  destruct (Rgt_dec S 0) as [_ | Hn]; [| unfold Rgt in Hn; lra].
  reflexivity.
Qed.

(** C2.  For a sequence width [S > 0], whatever the refs hold, the
    target velocities and the timestamps, after every frame (and every
    restart of the effect on a new target) the offset lies in [[0, S)]
    and the track is translated by its opposite; a frame computes it as
    [((x % S) + S) % S] from [x = offset + velocity * deltaTime], with
    [deltaTime >= 0]. *)
Theorem offset_wrap_invariant (S : R) (l : Loop) (es : list Event) :
  0 < S ->
  Forall (fun l' => 0 <= offsetRef (snd l') < S
                    /\ trackX (snd l') = - offsetRef (snd l'))
         (trace S l es)
  /\ (forall target t r,
        0 <= deltaTime t r
        /\ offsetRef (animate target S t r)
           = rem (rem (offsetRef r
                       + velocityRef (animate target S t r) * deltaTime t r) S + S) S).
Proof.
  intros HS. split.
  - revert l. induction es as [| e es IH]; intros l; cbn [trace].
    + constructor.
    + constructor; [| apply IH].
      destruct e as [t | target']; cbn [step snd].
      * split; [now apply animate_offset_range | now apply animate_trackX].
      * now apply effectStart_offset_range.
  - intros target t r. split.
    + apply deltaTime_nonneg.
    + now apply animate_offset_formula.
Qed.

Lemma offset_wrap_invariant_witness :
  Forall (fun l' => 0 <= offsetRef (snd l') < 200
                    /\ trackX (snd l') = - offsetRef (snd l'))
         (trace 200 (targetVelocity 120 Left, initialRefs)
            [Frame 0; Frame 16; Retarget (targetVelocity 120 Right); Frame 32]).
Proof.
  apply (offset_wrap_invariant 200 (targetVelocity 120 Left, initialRefs)
           [Frame 0; Frame 16; Retarget (targetVelocity 120 Right); Frame 32]).
  lra.
Defined.

End LogoLoopFacts.

(** ** Easing of the ticker velocity *)

Section VelocityFacts.
Import JS LogoLoop.

Lemma exp_times_nat (n : nat) (x : R) : exp (INR n * x) = exp x ^ n.
Proof.
  induction n as [| n IH].
  - cbn [INR pow]. rewrite Rmult_0_l. apply exp_0.
  - rewrite S_INR, Rmult_plus_distr_r, Rmult_1_l, exp_plus, IH.
    cbn [pow]. ring.
Qed.

(** [e^5 >= 100], from [e^(1/8) >= 9/8]. *)
Lemma exp_5_lower : 100 <= exp 5.
Proof.
  replace 5 with (INR 40 * (1 / 8)) by (cbn [INR]; lra).
  rewrite exp_times_nat.
  pose proof (exp_ineq1_le (1 / 8)) as H.
  apply Rle_trans with ((9 / 8) ^ 40); [lra |].
  apply pow_incr. lra.
Qed.

Lemma exp_neg5_upper : exp (- 5) <= 0.01.
Proof.
  replace (- 5) with (Ropp 5) by lra.
  rewrite exp_Ropp.
  pose proof exp_5_lower as H.
  replace 0.01 with (/ 100) by lra.
  apply Rinv_le_contravar; lra.
Qed.

(** [e^-5 > 0.005], from [e^(-1/16) >= 15/16]. *)
Lemma exp_neg5_lower : 0.005 < exp (- 5).
Proof.
  replace (- 5) with (INR 80 * (- (1 / 16))) by (cbn [INR]; lra).
  rewrite exp_times_nat.
  pose proof (exp_ineq1_le (- (1 / 16))) as H.
  apply Rlt_le_trans with ((15 / 16) ^ 80); [lra |].
  apply pow_incr. lra.
Qed.

Lemma animate_velocity (target S t : R) (r : Refs) :
  velocityRef (animate target S t r)
  = velocityRef r
    + (target - velocityRef r) * (1 - exp (- deltaTime t r / SMOOTH_TAU)).
Proof.
  unfold animate, Math_exp. destruct (Rgt_dec S 0); reflexivity.
Qed.

Lemma animate_lastTimestamp (target S t : R) (r : Refs) :
  lastTimestampRef (animate target S t r) = Some t.
Proof. unfold animate. destruct (Rgt_dec S 0); reflexivity. Qed.

Lemma totalDelta_cons (t : R) (ts : list R) (r : Refs) :
  totalDelta (lastTimestampRef r) (t :: ts)
  = deltaTime t r + totalDelta (Some t) ts.
Proof. reflexivity. Qed.

(** The distance to the target decays by [exp(- dt / tau)] over the
    summed frame deltas. *)
Lemma frames_velocity_gap (target S : R) (ts : list R) (r : Refs) :
  velocityRef (frames target S ts r) - target
  = (velocityRef r - target)
    * exp (- totalDelta (lastTimestampRef r) ts / SMOOTH_TAU).
Proof.
  revert r. induction ts as [| t ts IH]; intros r.
  - cbn [frames totalDelta].
    replace (- 0 / SMOOTH_TAU) with 0 by (unfold SMOOTH_TAU; lra).
    rewrite exp_0. ring.
  - cbn [frames]. rewrite IH, animate_lastTimestamp, animate_velocity.
    rewrite totalDelta_cons.
    replace (- (deltaTime t r + totalDelta (Some t) ts) / SMOOTH_TAU)
      with (- deltaTime t r / SMOOTH_TAU + - totalDelta (Some t) ts / SMOOTH_TAU)
      by (unfold SMOOTH_TAU; lra).
    rewrite exp_plus. ring.
Qed.

Lemma exp_le_mono (x y : R) : x <= y -> exp x <= exp y.
Proof.
  intros [H | ->]; [left; now apply exp_increasing | right; reflexivity].
Qed.

(** C4 (as amended).  A frame moves the velocity by
    [(target - velocity) * (1 - exp(- dt / tau))] with [tau = 0.25];
    so after frames under one target whose deltas sum to at least
    [5 * tau], the distance to the target is at most 1% of the
    distance it started from, and a ticker starting from velocity [0]
    (its initial velocity) is within 1% of the target. *)
Theorem velocity_converges (target S : R) (ts : list R) (r : Refs) :
  (forall t r0,
      velocityRef (animate target S t r0)
      = velocityRef r0
        + (target - velocityRef r0) * (1 - exp (- deltaTime t r0 / SMOOTH_TAU)))
  /\ SMOOTH_TAU = 0.25
  /\ (totalDelta (lastTimestampRef r) ts >= 5 * SMOOTH_TAU ->
      Rabs (velocityRef (frames target S ts r) - target)
        <= 0.01 * Rabs (velocityRef r - target)
      /\ (velocityRef r = 0 ->
          Rabs (velocityRef (frames target S ts r) - target)
            <= 0.01 * Rabs target)).
Proof.
  split; [intros t r0; apply animate_velocity |].
  split; [reflexivity |].
  intros Hsum.
  assert (Hgap : Rabs (velocityRef (frames target S ts r) - target)
                 <= 0.01 * Rabs (velocityRef r - target)).
  { rewrite frames_velocity_gap, Rabs_mult.
    rewrite (Rabs_right (exp _)) by (left; apply exp_pos).
    assert (He : exp (- totalDelta (lastTimestampRef r) ts / SMOOTH_TAU) <= 0.01).
    { apply Rle_trans with (exp (- 5)); [| apply exp_neg5_upper].
      apply exp_le_mono. unfold SMOOTH_TAU in *. lra. }
    pose proof (Rabs_pos (velocityRef r - target)).
    nra. }
  split; [exact Hgap |].
  intros Hv. rewrite Hv in Hgap.
  replace (0 - target) with (- target) in Hgap by ring.
  now rewrite Rabs_Ropp in Hgap.
Qed.

Lemma velocity_converges_witness :
  Rabs (velocityRef (frames 120 200 [0; 500; 1250] initialRefs) - 120)
    <= 0.01 * Rabs 120.
Proof.
  apply (velocity_converges 120 200 [0; 500; 1250] initialRefs).
  - cbn [totalDelta initialRefs lastTimestampRef]. unfold Math_max, SMOOTH_TAU.
    rewrite (Rmax_left 0 (0 - 0)) by lra.
    rewrite (Rmax_right 0 (500 - 0)) by lra.
    rewrite (Rmax_right 0 (1250 - 500)) by lra.
    lra.
  - reflexivity.
Defined.

(** C4 as stated fails: with velocity [120] and the direction turned
    from ['left'] to ['right'] (target [-120]), one frame 1.25 s after
    the last leaves the velocity more than 1% of the target away from
    it. *)
Lemma velocity_not_within_1pct_of_target :
  let r := {| lastTimestampRef := Some 0; offsetRef := 0;
              velocityRef := targetVelocity 120 Left; trackX := 0 |} in
  let target := targetVelocity 120 Right in
  totalDelta (lastTimestampRef r) [1250] >= 5 * SMOOTH_TAU
  /\ ~ Rabs (velocityRef (frames target 200 [1250] r) - target)
       <= 0.01 * Rabs target.
Proof.
  intros r target.
  assert (Hd : totalDelta (lastTimestampRef r) [1250] = 1.25).
  { cbn. unfold Math_max. rewrite Rmax_right by lra. lra. }
  split; [rewrite Hd; unfold SMOOTH_TAU; lra |].
  intros Hle. rewrite frames_velocity_gap in Hle.
  assert (Hg : exp (- totalDelta (lastTimestampRef r) [1250] / SMOOTH_TAU)
               = exp (- 5)).
  { f_equal. rewrite Hd. unfold SMOOTH_TAU. lra. }
  destruct (targetVelocity_value 120) as [HL HR].
  subst target. cbn [velocityRef r] in Hle. rewrite Hg, HL, HR in Hle.
  pose proof exp_neg5_lower as Hlow.
  rewrite Rabs_mult in Hle. revert Hle.
  unfold Rabs. repeat destruct (Rcase_abs _); lra.
Qed.

End VelocityFacts.

(** ** The frame callback of the terminal surface *)

Section UpdateFacts.
Import JS GLSL Terminal.

(** Case analysis on the guards of [update]. *)
Ltac update_cases P :=
  unfold update;
  destruct (pageLoadAnimation P); destruct (mouseReact P); cbn [andb negb];
  repeat match goal with
         | |- context [if ?c then _ else _] => destruct c
         end.

Lemma update_iTime_running (P : Props) (t : R) (s : Surface) :
  pause P = false ->
  iTime (uniforms (update P t s)) = (t * 0.001 + timeOffsetRef (refs s)) * timeScale P
  /\ frozenTimeRef (refs (update P t s)) = iTime (uniforms (update P t s)).
Proof.
  intros Hp. unfold update. rewrite Hp.
  update_cases P; cbn; split; reflexivity.
Qed.

Lemma update_iTime_paused (P : Props) (t : R) (s : Surface) :
  pause P = true ->
  iTime (uniforms (update P t s)) = frozenTimeRef (refs s)
  /\ frozenTimeRef (refs (update P t s)) = frozenTimeRef (refs s).
Proof.
  intros Hp. unfold update. rewrite Hp.
  update_cases P; cbn; split; reflexivity.
Qed.

Lemma update_timeOffset (P : Props) (t : R) (s : Surface) :
  timeOffsetRef (refs (update P t s)) = timeOffsetRef (refs s).
Proof.
  destruct (pause P) eqn:Hp; unfold update; rewrite Hp;
    update_cases P; reflexivity.
Qed.

(** Paused frames keep the snapshot and the phase, and report the
    snapshot. *)
Lemma paused_frames_frozen (P : Props) (ts : list R) (s : Surface) :
  pause P = true ->
  Forall (fun s' => iTime (uniforms s') = frozenTimeRef (refs s)) (updates P ts s)
  /\ frozenTimeRef (refs (runUpdates P ts s)) = frozenTimeRef (refs s)
  /\ timeOffsetRef (refs (runUpdates P ts s)) = timeOffsetRef (refs s).
Proof.
  intros Hp. revert s. induction ts as [| t ts IH]; intros s.
  - cbn. repeat split. constructor.
  - cbn [updates runUpdates].
    destruct (update_iTime_paused P t s Hp) as [Hi Hf].
    destruct (IH (update P t s)) as (IH1 & IH2 & IH3).
    rewrite Hf in IH1, IH2. rewrite update_timeOffset in IH3.
    repeat split; try assumption.
    constructor; assumption.
Qed.

Lemma pause_with_pause (b : bool) (P : Props) : pause (with_pause b P) = b.
Proof. reflexivity. Qed.

(** An unpaused frame after a pause reads the clock from its own
    timestamp and the phase, which no frame or re-run changes. *)
Lemma resumed_iTime (P : Props) (w h t0 t1 : R) (ts : list R) (s : Surface) :
  let running := with_pause false P in
  let paused := with_pause true P in
  iTime (uniforms
           (update running t1
              (remount running w h
                 (runUpdates paused ts
                    (remount paused w h (update running t0 s))))))
  = (t1 * 0.001 + timeOffsetRef (refs s)) * timeScale P.
Proof.
  intros running paused.
  destruct (paused_frames_frozen paused ts
              (remount paused w h (update running t0 s))
              (pause_with_pause true P)) as (_ & _ & Hoff).
  cbn [remount refs] in Hoff. rewrite update_timeOffset in Hoff.
  match goal with
  | |- iTime (uniforms (update _ _ ?s1)) = _ =>
      destruct (update_iTime_running running t1 s1 (pause_with_pause false P))
        as [Hi1 _]
  end.
  rewrite Hi1. cbn [remount refs]. rewrite Hoff. reflexivity.
Qed.

(** C1 (as amended).  While the pause flag is set, every frame reports
    the snapshot taken at the last unpaused frame, and it does not
    advance.  After resuming, the elapsed time is computed from the
    frame's own timestamp, [(t / 1000 + phase) * timeScale]: it equals
    the elapsed time at the moment of pause plus [timeScale] times the
    whole wall-clock time since the last unpaused frame, the paused
    interval included. *)
Theorem clock_pause_resume (P : Props) (w h t0 t1 : R) (ts : list R) (s : Surface) :
  let running := with_pause false P in
  let paused := with_pause true P in
  let atPause := update running t0 s in
  let whilePaused := updates paused ts (remount paused w h atPause) in
  let resumed :=
    update running t1
      (remount running w h (runUpdates paused ts (remount paused w h atPause))) in
  Forall (fun s' => iTime (uniforms s') = iTime (uniforms atPause)) whilePaused
  /\ iTime (uniforms resumed)
     = (t1 * 0.001 + timeOffsetRef (refs s)) * timeScale P
  /\ iTime (uniforms resumed)
     = iTime (uniforms atPause) + (t1 - t0) * 0.001 * timeScale P.
Proof.
  intros running paused atPause whilePaused resumed.
  destruct (update_iTime_running running t0 s (pause_with_pause false P))
    as [Hi0 Hf0].
  fold atPause in Hi0, Hf0.
  destruct (paused_frames_frozen paused ts (remount paused w h atPause)
              (pause_with_pause true P)) as (Hall & _ & Hoff).
  cbn [remount refs] in Hall, Hoff.
  assert (Hres : iTime (uniforms resumed)
                 = (t1 * 0.001 + timeOffsetRef (refs s)) * timeScale P)
    by apply resumed_iTime.
  split; [| split].
  - subst whilePaused. rewrite <- Hf0. exact Hall.
  - exact Hres.
  - rewrite Hres, Hi0. change (timeScale running) with (timeScale P). unfold number. field.
Qed.

(** C1 as stated fails: with the default props and phase [0], an
    unpaused frame at 1000 ms, paused frames at 2000 and 3000 ms and an
    unpaused frame at 3016 ms, the clock the specification describes
    reports [0.3048] after resuming (0.3 at the pause plus the 16 ms
    unpaused delta times the time scale 0.3), while [update] reports
    [0.9048]. *)
Lemma clock_resume_jumps :
  let running := defaultProps 1 in
  let paused := with_pause true running in
  let s0 := mount running 0 800 600 in
  let atPause := update running 1000 s0 in
  let resumed :=
    update running 3016
      (remount running 800 600
         (runUpdates paused [2000; 3000] (remount paused 800 600 atPause))) in
  let c0 := SpecClock.mkClock 0 0 in
  let c1 := fst (SpecClock.advance ((1000 - 0) * 0.001) 0.3 false c0) in
  let c2 := fst (SpecClock.advance ((2000 - 1000) * 0.001) 0.3 true c1) in
  let c3 := fst (SpecClock.advance ((3000 - 2000) * 0.001) 0.3 true c2) in
  let specResumed := snd (SpecClock.advance ((3016 - 3000) * 0.001) 0.3 false c3) in
  iTime (uniforms atPause) = 0.3
  /\ SpecClock.frozen c1 = 0.3
  /\ specResumed = 0.3048
  /\ iTime (uniforms resumed) = 0.9048
  /\ iTime (uniforms resumed)
     <> iTime (uniforms atPause) + (3016 - 3000) * 0.001 * timeScale running.
Proof.
  intros running paused s0 atPause resumed c0 c1 c2 c3 specResumed.
  assert (H0 : iTime (uniforms atPause) = 0.3).
  { destruct (update_iTime_running running 1000 s0 eq_refl) as [H _].
    subst atPause. rewrite H. cbn. lra. }
  assert (H1 : iTime (uniforms resumed) = 0.9048).
  { subst resumed atPause paused.
    change running with (with_pause false running).
    rewrite resumed_iTime. cbn. lra. }
  repeat split.
  - exact H0.
  - cbn. lra.
  - cbn. lra.
  - exact H1.
  - rewrite H0, H1. cbn. lra.
Qed.

End UpdateFacts.

(** ** The page-load ramp *)

Section PageLoadFacts.
Import JS GLSL Terminal.

Lemma update_start (P : Props) (t : R) (s : Surface) :
  pageLoadAnimation P = true ->
  (pageLoadStart s = 0 -> pageLoadStart (update P t s) = t)
  /\ (pageLoadStart s <> 0 -> pageLoadStart (update P t s) = pageLoadStart s).
Proof.
  intros HP. unfold pageLoadStart, update. rewrite HP. cbn [andb].
  destruct (Req_dec_T (loadAnimationStartRef (refs s)) 0) as [E | NE];
    (split; intros H; [| try contradiction]; try (exfalso; auto; fail));
    destruct (negb (pause P)); destruct (mouseReact P);
    repeat match goal with
           | |- context [if ?c then _ else _] => destruct c
           end; reflexivity.
Qed.

Lemma update_progress (P : Props) (t : R) (s : Surface) :
  pageLoadAnimation P = true ->
  (pageLoadStart (update P t s) > 0 ->
     pageLoadProgress (update P t s)
     = Rmin ((t - pageLoadStart (update P t s)) / 2000) 1)
  /\ (~ pageLoadStart (update P t s) > 0 ->
      pageLoadProgress (update P t s) = pageLoadProgress s).
Proof.
  intros HP. unfold pageLoadStart, pageLoadProgress, update. rewrite HP. cbn [andb].
  destruct (Req_dec_T (loadAnimationStartRef (refs s)) 0) as [E | NE];
    destruct (negb (pause P)); destruct (mouseReact P);
    match goal with
    | |- context [Rgt_dec ?a ?b] => destruct (Rgt_dec a b) as [G | G]
    end; cbn; (split; intros H; [| try contradiction]);
    try (exfalso; auto; fail); reflexivity.
Qed.

Lemma update_progress_disabled (P : Props) (t : R) (s : Surface) :
  pageLoadAnimation P = false ->
  pageLoadProgress (update P t s) = pageLoadProgress s.
Proof.
  intros HP. unfold pageLoadProgress, update. rewrite HP. cbn [andb].
  destruct (negb (pause P)); destruct (mouseReact P); reflexivity.
Qed.

Lemma runUpdates_app (P : Props) (pre : list R) (t : R) (s : Surface) :
  runUpdates P (pre ++ [t]) s = update P t (runUpdates P pre s).
Proof.
  revert s. induction pre as [| x pre IH]; intros s; cbn; [reflexivity | apply IH].
Qed.

Lemma firstNonzero_app (pre : list R) (t : R) :
  firstNonzero (pre ++ [t])
  = if Req_dec_T (firstNonzero pre) 0 then t else firstNonzero pre.
Proof.
  induction pre as [| x pre IH]; cbn.
  - destruct (Req_dec_T t 0) as [-> | NE]; destruct (Req_dec_T 0 0);
      try reflexivity; contradiction.
  - destruct (Req_dec_T x 0) as [E | NE]; [exact IH |].
    destruct (Req_dec_T x 0); [contradiction | reflexivity].
Qed.

(** The recorded start is one of the timestamps seen, or still [0]. *)
Lemma firstNonzero_bounds (ts : list R) (lo hi : R) :
  lo <= 0 <= hi ->
  Forall (fun x => lo <= x <= hi) ts -> lo <= firstNonzero ts <= hi.
Proof.
  intros H0 Hall. induction Hall as [| x ts Hx _ IH]; cbn; [lra |].
  destruct (Req_dec_T x 0); [exact IH | exact Hx].
Qed.

Lemma sorted_app_last (pre : list R) (t : R) :
  Sorted Rle (pre ++ [t]) -> Sorted Rle pre /\ Forall (fun x => x <= t) pre.
Proof.
  induction pre as [| x pre IH]; cbn; intros HS.
  - split; constructor.
  - inversion HS as [| ? ? HS' Hhd]; subst.
    destruct (IH HS') as [IH1 IH2].
    split.
    + constructor; [exact IH1 |].
      destruct pre; [constructor |].
      inversion Hhd; subst. now constructor.
    + constructor; [| exact IH2].
      destruct pre as [| y pre]; cbn in Hhd; inversion Hhd; subst; [assumption |].
      inversion IH2; subst. lra.
Qed.

Lemma forall_app_last {A : Type} (Q : A -> Prop) (pre : list A) (t : A) :
  Forall Q (pre ++ [t]) -> Forall Q pre /\ Q t.
Proof.
  intros H. apply Forall_app in H. destruct H as [H1 H2].
  split; [exact H1 | now inversion H2].
Qed.

(** The ratio of the ramp, clamped to [[0, 1]]. *)
Lemma clamp_at_start (t : R) : Rmin (Rmax ((t - t) / 2000) 0) 1 = 0.
Proof.
  replace ((t - t) / 2000) with 0 by lra.
  rewrite Rmax_left, Rmin_left; lra.
Qed.

(** The state of the ramp after a run of frames from the mount: the
    start is the first non-zero timestamp and the progress is the
    clamped ratio at the last frame ([0] before any frame). *)
Lemma ramp_state (P : Props) (off w h : R) (ts : list R) :
  pageLoadAnimation P = true ->
  Forall (Rle 0) ts -> Sorted Rle ts ->
  let s := runUpdates P ts (mount P off w h) in
  pageLoadStart s = firstNonzero ts
  /\ pageLoadProgress s
     = match rev ts with
       | [] => 0
       | t :: _ => Rmin (Rmax ((t - firstNonzero ts) / 2000) 0) 1
       end.
Proof.
  intros HP. induction ts as [| t pre IH] using rev_ind; intros Hpos Hsort s.
  - subst s. cbn. unfold pageLoadProgress. cbn. rewrite HP. split; reflexivity.
  - destruct (forall_app_last _ _ _ Hpos) as [Hpos' Ht].
    destruct (sorted_app_last _ _ Hsort) as [Hsort' Hle].
    destruct (IH Hpos' Hsort') as [IHs IHp]. clear IH.
    subst s. rewrite runUpdates_app, rev_app_distr. cbn [rev app].
    set (s1 := runUpdates P pre (mount P off w h)) in *.
    destruct (update_start P t s1 HP) as [Hs0 Hs1].
    destruct (update_progress P t s1 HP) as [Hp1 Hp0].
    rewrite firstNonzero_app.
    assert (Hb : 0 <= firstNonzero pre <= t).
    { apply firstNonzero_bounds; [lra |].
      rewrite Forall_forall in *. intros x Hx. split; auto. }
    destruct (Req_dec_T (firstNonzero pre) 0) as [E | NE].
    + rewrite E in IHs. rewrite (Hs0 IHs) in *. split; [reflexivity |].
      rewrite clamp_at_start.
      destruct (Rgt_dec t 0) as [G | G].
      * rewrite (Hp1 G). replace ((t - t) / 2000) with 0 by lra.
        rewrite Rmin_left; lra.
      * rewrite (Hp0 G), IHp.
        assert (Et : t = 0) by (unfold Rgt in G; lra).
        destruct (rev pre) as [| t' l] eqn:Er; [reflexivity |].
        assert (Hin : In t' pre) by (apply in_rev; rewrite Er; now left).
        rewrite Forall_forall in Hpos', Hle.
        pose proof (Hpos' _ Hin). pose proof (Hle _ Hin).
        rewrite E. replace t' with 0 by lra.
        apply clamp_at_start.
    + assert (NE' : pageLoadStart s1 <> 0) by now rewrite IHs.
      rewrite (Hs1 NE') in *. split; [exact IHs |].
      assert (G : pageLoadStart s1 > 0) by (rewrite IHs; unfold Rgt; lra).
      rewrite (Hp1 G), IHs.
      rewrite (Rmax_left ((t - firstNonzero pre) / 2000) 0) by lra.
      reflexivity.
Qed.

Lemma firstNonzero_zero (ts : list R) :
  firstNonzero ts = 0 -> Forall (fun x => x = 0) ts.
Proof.
  induction ts as [| x ts IH]; cbn; intros H; [constructor |].
  destruct (Req_dec_T x 0) as [E | NE].
  - constructor; [exact E | now apply IH].
  - contradiction.
Qed.

Lemma clamp01_mono (a b : R) :
  a <= b -> Rmin (Rmax a 0) 1 <= Rmin (Rmax b 0) 1.
Proof.
  intros H. unfold Rmin, Rmax. repeat destruct (Rle_dec _ _); lra.
Qed.

Lemma clamp01_range (a : R) : 0 <= Rmin (Rmax a 0) 1 <= 1.
Proof. unfold Rmin, Rmax. repeat destruct (Rle_dec _ _); lra. Qed.

Lemma runUpdates_progress_disabled (P : Props) (ts : list R) (s : Surface) :
  pageLoadAnimation P = false ->
  pageLoadProgress (runUpdates P ts s) = pageLoadProgress s.
Proof.
  intros HP. revert s. induction ts as [| t ts IH]; intros s; cbn [runUpdates].
  - reflexivity.
  - rewrite IH. now apply update_progress_disabled.
Qed.

(** C5.  For frames with non-negative, non-decreasing timestamps after
    the mount: with the page-load animation enabled, the start recorded
    is the first non-zero timestamp and is kept once recorded; the
    progress pushed at a frame at [t] is [clamp((t - start) / 2000, 0, 1)];
    it never decreases from one frame to the next, is [1] exactly when
    2000 ms or more have passed since the start, and stays [1] once it
    is.  With the animation disabled the progress is [1] at every
    frame. *)
Theorem pageLoad_progress (P : Props) (off w h : R) (pre : list R) (t : R) :
  Forall (Rle 0) (pre ++ [t]) -> Sorted Rle (pre ++ [t]) ->
  let before := runUpdates P pre (mount P off w h) in
  let after := update P t before in
  (pageLoadAnimation P = true ->
     let start := pageLoadStart after in
     start = firstNonzero (pre ++ [t])
     /\ (pageLoadStart before <> 0 -> start = pageLoadStart before)
     /\ pageLoadProgress after = Rmin (Rmax ((t - start) / 2000) 0) 1
     /\ pageLoadProgress before <= pageLoadProgress after
     /\ (t - start >= 2000 -> pageLoadProgress after = 1)
     /\ (t - start < 2000 -> pageLoadProgress after < 1)
     /\ (pageLoadProgress before = 1 -> pageLoadProgress after = 1))
  /\ (pageLoadAnimation P = false ->
      pageLoadProgress before = 1 /\ pageLoadProgress after = 1).
Proof.
  intros Hpos Hsort before after. split.
  - intros HP start.
    destruct (forall_app_last _ _ _ Hpos) as [Hpos' Ht].
    destruct (sorted_app_last _ _ Hsort) as [Hsort' Hle].
    destruct (ramp_state P off w h pre HP Hpos' Hsort') as [Bs Bp].
    destruct (ramp_state P off w h (pre ++ [t]) HP Hpos Hsort) as [As Ap].
    rewrite runUpdates_app in As, Ap. rewrite rev_app_distr in Ap.
    cbn [rev app] in Ap. fold before in Bs, Bp, As, Ap. fold after in As, Ap.
    fold start in As. rewrite <- As in Ap.
    assert (Hmono : pageLoadProgress before <= pageLoadProgress after).
    { rewrite Ap, Bp. destruct (rev pre) as [| t' l] eqn:Er.
      - apply clamp01_range.
      - assert (Hin : In t' pre) by (apply in_rev; rewrite Er; now left).
        rewrite Forall_forall in Hle, Hpos'.
        pose proof (Hle _ Hin) as Hle'. pose proof (Hpos' _ Hin) as H0.
        rewrite As, firstNonzero_app.
        destruct (Req_dec_T (firstNonzero pre) 0) as [E | NE].
        + pose proof (firstNonzero_zero pre E) as Hz.
          rewrite Forall_forall in Hz. rewrite (Hz _ Hin), E.
          apply clamp01_mono. lra.
        + apply clamp01_mono. lra. }
    assert (Hrange := clamp01_range ((t - start) / 2000)).
    repeat split.
    + exact As.
    + intros NE. apply (proj2 (update_start P t before HP) NE).
    + exact Ap.
    + exact Hmono.
    + intros Hge. rewrite Ap. unfold Rmin, Rmax.
      repeat destruct (Rle_dec _ _); lra.
    + intros Hlt. rewrite Ap. unfold Rmin, Rmax.
      repeat destruct (Rle_dec _ _); lra.
    + intros H1. rewrite Ap in *. lra.
  - intros HP.
    assert (Hb : pageLoadProgress before = 1).
    { subst before. rewrite runUpdates_progress_disabled by exact HP.
      unfold pageLoadProgress. cbn. now rewrite HP. }
    split; [exact Hb |].
    subst after. now rewrite update_progress_disabled.
Qed.

Lemma pageLoad_progress_witness :
  pageLoadProgress
    (update (defaultProps 1) 2016
       (runUpdates (defaultProps 1) [16; 1016] (mount (defaultProps 1) 0 800 600)))
  = 1.
Proof.
  assert (Hpos : Forall (Rle 0) ([16; 1016] ++ [2016])).
  { cbn. repeat constructor; lra. }
  assert (Hsort : Sorted Rle ([16; 1016] ++ [2016])).
  { cbn. repeat constructor; lra. }
  destruct (pageLoad_progress (defaultProps 1) 0 800 600 [16; 1016] 2016 Hpos Hsort)
    as [Hon _].
  destruct (Hon eq_refl) as (Hstart & _ & _ & _ & Hfull & _).
  apply Hfull. rewrite Hstart. cbn.
  destruct (Req_dec_T 16 0); lra.
Defined.

End PageLoadFacts.

(** ** The overlay rasterizer *)

Section RasterizerFacts.
Import JS Terminal Rasterizer.

Context {Markup Bitmap : Type}.
Variable drawImage : Capture Markup -> Bitmap.

Lemma updateLogoTexture_no_context (dpr : R) (logoCtn : option (Element Markup))
    (logoTexture : option WebGLTexture) (w : World Markup Bitmap) :
  updateLogoTexture dpr logoCtn logoTexture false w = Normal w.
Proof.
  unfold updateLogoTexture. destruct logoCtn, logoTexture; reflexivity.
Qed.

Lemma run_skipped_ticks (dpr : R) (logoTexture : option WebGLTexture)
    (w : World Markup Bitmap) (es : list (Event Markup)) :
  forallb (fun e => failedTick e || isDraw e) es = true ->
  run drawImage dpr logoTexture w es
  = Some (w, repeat (sampledTexture w) (List.length (filter isDraw es))).
Proof.
  induction es as [| e es IH]; cbn [forallb run filter]; intros H.
  - reflexivity.
  - apply andb_true_iff in H. destruct H as [He Hes].
    destruct e as [ctn [|] | i |]; cbn in He; try discriminate.
    + cbn [step isDraw]. rewrite updateLogoTexture_no_context, (IH Hes).
      reflexivity.
    + cbn [step isDraw]. rewrite (IH Hes). reflexivity.
Qed.

(** C7.  A rasterization tick that cannot obtain the 2D context returns
    normally and leaves everything as it was: no [texImage2D], no image
    left loading.  Over any run of such ticks and draw calls the world
    is unchanged and every draw samples the texture that was there
    before; a later tick that does obtain a context uploads a new
    bitmap when its image has loaded. *)
Theorem raster_tick_without_context (dpr : R) (logoCtn : option (Element Markup))
    (logoTexture : option WebGLTexture) (w : World Markup Bitmap) (es : list (Event Markup)) :
  updateLogoTexture dpr logoCtn logoTexture false w = Normal w
  /\ (forallb (fun e => failedTick e || isDraw e) es = true ->
      exists seen,
        run drawImage dpr logoTexture w es = Some (w, seen)
        /\ List.length seen = List.length (filter isDraw es)
        /\ Forall (fun tex => tex = sampledTexture w) seen)
  /\ (forall el tex,
        pendingImages w = [] ->
        exists img,
          run drawImage dpr (Some tex) w [Tick (Some el) true; Loaded 0; Draw]
          = Some ({| gl := {| textureData := Some (drawImage img);
                              texImage2DCalls := S (texImage2DCalls (gl w)) |};
                     pendingImages := [] |},
                  [Some (drawImage img)])
          /\ capData img = content el).
Proof.
  split; [apply updateLogoTexture_no_context |]. split.
  - intros H. eexists. split; [now apply run_skipped_ticks |].
    split; [apply repeat_length |].
    apply Forall_forall. intros x Hx. now apply repeat_spec in Hx.
  - intros el tex Hp. eexists.
    cbn. unfold imageLoaded. cbn. rewrite Hp. cbn.
    split; reflexivity.
Qed.

End RasterizerFacts.

Lemma raster_tick_without_context_witness :
  let w := Rasterizer.mkWorld (Markup := unit) (Rasterizer.mkGl (Some 7%nat) 1) [] in
  exists seen,
    Rasterizer.run (fun _ => 0%nat) 1 (Some Terminal.LogoTexture) w
      [Rasterizer.Tick (Some (Rasterizer.mkElement 800 52 tt)) false;
       Rasterizer.Draw; Rasterizer.Tick None false; Rasterizer.Draw]
    = Some (w, seen)
    /\ List.length seen = 2%nat
    /\ Forall (fun tex => tex = Some 7%nat) seen.
Proof.
  intros w.
  apply (raster_tick_without_context (fun _ => 0%nat) 1 None
           (Some Terminal.LogoTexture) w
           [Rasterizer.Tick (Some (Rasterizer.mkElement 800 52 tt)) false;
            Rasterizer.Draw; Rasterizer.Tick None false; Rasterizer.Draw]).
  reflexivity.
Defined.

(** ** The fragment shader *)

Section ShaderFacts.
Import JS GLSL Terminal Shader.

Lemma barrel_flat (U : Uniforms) (uv : vec2) :
  uCurvature U = 0 -> barrel U uv = uv.
Proof.
  intros HU. destruct uv as [x y].
  unfold barrel, vadds, vscale, vsubs, dot, vx, vy. cbn [fst snd].
  rewrite HU. unfold number. f_equal; rewrite Rmult_0_l; lra.
Qed.

(** C8.  With [uCurvature = 0] the barrel remap is the identity, and
    [main] does not apply it: the coordinate [uv] it samples with, the
    point [p = uv * uScale] it hands to [getColor] and [displace], and
    the overlay coordinate [logoUv] are the raw [vUv]. *)
Theorem curvature_zero_identity (U : Uniforms) (vUv : vec2) :
  uCurvature U = 0 ->
  barrel U vUv = vUv
  /\ main_uv U vUv = vUv
  /\ vscale (main_uv U vUv) (uScale U) = vscale vUv (uScale U)
  /\ main_logoUv U vUv (main_uv U vUv) = vUv.
Proof.
  intros HU.
  assert (Huv : main_uv U vUv = vUv).
  { unfold main_uv. destruct (Req_dec_T (uCurvature U) 0); [reflexivity | contradiction]. }
  repeat split.
  - now apply barrel_flat.
  - exact Huv.
  - now rewrite Huv.
  - unfold main_logoUv. rewrite Huv.
    destruct (Req_dec_T (uCurvature U) 0); [reflexivity | contradiction].
Qed.

Lemma curvature_zero_identity_witness :
  let U := createProgram (with_curvature 0 (defaultProps 1)) (initialRefs 0)
             800 600 (Some LogoTexture) in
  main_uv U (0.25, 0.75) = (0.25, 0.75).
Proof.
  intros U.
  apply (curvature_zero_identity U (0.25, 0.75)).
  reflexivity.
Defined.

Lemma mouseInfluence_zero (U : Uniforms) (s : vec2) :
  uMouseStrength U = 0 -> mouseInfluence U s = 0.
Proof. intros HU. unfold mouseInfluence. rewrite HU. unfold number. ring. Qed.

Lemma ripple_zero (U : Uniforms) (s : vec2) :
  uMouseStrength U = 0 -> ripple U s = 0.
Proof.
  intros HU. unfold ripple. rewrite (mouseInfluence_zero U s HU).
  unfold number. ring.
Qed.

Lemma digit_mouse_zero (U : Uniforms) (s : vec2) (intensity : R) :
  uMouseStrength U = 0 -> digit_mouse U s intensity = intensity.
Proof.
  intros HU. unfold digit_mouse.
  destruct (Rgt_dec (uUseMouse U) 0.5); [| reflexivity].
  rewrite (mouseInfluence_zero U s HU), (ripple_zero U s HU).
  unfold number. ring.
Qed.

Lemma digit_mouse_disabled (U : Uniforms) (s : vec2) (intensity : R) :
  digit_mouse (set_uUseMouse 0 U) s intensity = intensity.
Proof.
  unfold digit_mouse. cbn [uUseMouse set_uUseMouse].
  destruct (Rgt_dec 0 0.5) as [G | _]; [unfold Rgt in G; lra | reflexivity].
Qed.

(** C9.  With [uMouseStrength = 0], whatever [uUseMouse], the pointer
    position, the cell and the time: the influence and the ripple are
    both [0], the pointer block of [digit] leaves the intensity as it
    found it, and [digit] is what it is with the pointer switched off. *)
Theorem pointer_strength_zero (U : Uniforms) (time : R) :
  uMouseStrength U = 0 ->
  (forall s, mouseInfluence U s = 0 /\ ripple U s = 0)
  /\ (forall s intensity, digit_mouse U s intensity = intensity)
  /\ (forall p, digit U time p = digit (set_uUseMouse 0 U) time p).
Proof.
  intros HU. repeat split.
  - now apply mouseInfluence_zero.
  - now apply ripple_zero.
  - intros s intensity. now apply digit_mouse_zero.
  - intros p. unfold digit.
    rewrite (digit_mouse_zero U _ _ HU), digit_mouse_disabled.
    reflexivity.
Qed.

Lemma pointer_strength_zero_witness :
  let U := createProgram (with_mouseStrength 0 (defaultProps 1)) (initialRefs 0)
             800 600 (Some LogoTexture) in
  uUseMouse U = 1
  /\ digit_mouse U (0.5, 0.5) 0.4 = 0.4.
Proof.
  intros U. split; [reflexivity |].
  apply (pointer_strength_zero U 0). reflexivity.
Defined.

(** The point [getColor] samples at, in closed form. *)
Lemma getColor_displaced_formula (U : Uniforms) (p : vec2) :
  getColor_displaced U p = (vx p + displace U p * uGlitchAmount U, vy p).
Proof.
  unfold getColor_displaced.
  destruct (Req_dec_T (uGlitchAmount U) 1) as [E | NE]; cbn [vx vy fst snd].
  - rewrite E. unfold number. f_equal. ring.
  - unfold number. f_equal. ring.
Qed.

(** With the flicker amount at [0] nothing is displaced, and the digits
    are what they were. *)
Lemma displace_unflickered (U : Uniforms) (x : vec2) :
  displace (Runs.set_uFlickerAmount 0 U) x = 0.
Proof.
  unfold displace, onOff. cbn [uFlickerAmount Runs.set_uFlickerAmount iTime].
  unfold number. rewrite Rmult_0_r. rewrite Rmult_0_r, !Rmult_0_l. reflexivity.
Qed.

Lemma getColor_displaced_unflickered (U : Uniforms) (x : vec2) :
  getColor_displaced (Runs.set_uFlickerAmount 0 U) x = x.
Proof.
  rewrite getColor_displaced_formula, displace_unflickered.
  destruct x as [a b]. cbn [vx vy fst snd]. unfold number. f_equal. ring.
Qed.

Lemma digit_unflickered (U : Uniforms) (time : R) (x : vec2) :
  digit (Runs.set_uFlickerAmount 0 U) time x = digit U time x.
Proof. reflexivity. Qed.

(** [getColor] is the undisplaced colour taken at the displaced point. *)
Lemma getColor_at_displaced (U : Uniforms) (time : R) (p : vec2) :
  getColor U time p
  = getColor (Runs.set_uFlickerAmount 0 U) time
      (vx p + displace U p * uGlitchAmount U, vy p).
Proof.
  unfold getColor. cbv zeta.
  rewrite getColor_displaced_unflickered, !digit_unflickered.
  rewrite (getColor_displaced_formula U p).
  cbn [uScanlineIntensity Runs.set_uFlickerAmount vy snd]. reflexivity.
Qed.

(** C10.  [getColor] gives, for every [uGlitchAmount], the colour it
    gives with nothing displaced (flicker amount [0]) at the point [p]
    moved horizontally by [displace(p) * uGlitchAmount]: adding
    [displace(p)] and then, when [uGlitchAmount != 1],
    [displace(p) * (uGlitchAmount - 1)] is the same as scaling.  With
    [uGlitchAmount = 0] the colour is the one at [p] itself. *)
Theorem glitch_scales_displacement (U : Uniforms) (time : R) (p : vec2) :
  let still := Runs.set_uFlickerAmount 0 U in
  let q := (vx p + displace U p * uGlitchAmount U, vy p) in
  (forall x, getColor_displaced still x = x)
  /\ getColor U time p = getColor still time q
  /\ getColor_displaced U p = q
  /\ vx (getColor_displaced U p) - vx p = displace U p * uGlitchAmount U
  /\ (uGlitchAmount U = 0 ->
      getColor_displaced U p = p /\ getColor U time p = getColor still time p).
Proof.
  intros still q.
  pose proof (getColor_displaced_formula U p) as H.
  split; [intros x; apply getColor_displaced_unflickered |].
  split; [apply getColor_at_displaced |].
  split; [exact H |].
  split.
  - rewrite H. unfold vx at 1. cbn [fst]. unfold number. ring.
  - intros H0.
    assert (Hq : q = p).
    { subst q. rewrite H0. destruct p as [x y]. cbn [vx vy fst snd].
      unfold number. f_equal. ring. }
    split.
    + rewrite H. exact Hq.
    + rewrite <- Hq at 2. apply getColor_at_displaced.
Qed.

(** A time and a point at which the flicker gate is open and the
    displacement is not zero: [iTime = 11 pi / 6], [p.y = pi / 30]. *)
Lemma displace_gate_open :
  let U := set_iTime (11 * PI / 6)
             (createProgram (with_glitchAmount 0 (defaultProps 1)) (initialRefs 0)
                800 600 (Some LogoTexture)) in
  0 < displace U (0.3, PI / 30).
Proof.
  cbn zeta. unfold displace, onOff.
  cbn [iTime set_iTime uFlickerAmount createProgram with_glitchAmount defaultProps
       flickerAmount vy snd].
  assert (Hgate : sin (11 * PI / 6 + 4 * cos (11 * PI / 6 * 2)) >= 0.8).
  { replace (11 * PI / 6 * 2) with (- (PI / 3) + 2 * INR 2 * PI)
      by (cbn [INR]; lra).
    rewrite cos_period, cos_neg, cos_PI3.
    replace (11 * PI / 6 + 4 * (1 / 2)) with (2 - PI / 6 + 2 * INR 1 * PI)
      by (cbn [INR]; lra).
    rewrite sin_period.
    pose proof PI_4. pose proof PI2_3_2.
    assert (Hs : sin (PI / 3) <= sin (2 - PI / 6)) by (apply sin_incr_1; lra).
    rewrite sin_PI3 in Hs.
    assert (H16 : 1.6 <= sqrt 3).
    { rewrite <- (sqrt_square 1.6) by lra. apply sqrt_le_1_alt. lra. }
    lra. }
  assert (Hcos : cos (11 * PI / 6 * 60) = 1).
  { replace (11 * PI / 6 * 60) with (0 + 2 * INR 55 * PI).
    - rewrite cos_period. apply cos_0.
    - rewrite INR_IZR_INZ. cbn. lra. }
  assert (Hsin : sin (PI / 30 * 20 + 11 * PI / 6) = 1).
  { replace (PI / 30 * 20 + 11 * PI / 6) with (PI / 2 + 2 * INR 1 * PI)
      by (cbn [INR]; lra).
    rewrite sin_period. apply sin_PI2. }
  unfold number in *. rewrite Hsin, Hcos.
  unfold step. destruct (Rlt_dec _ 0.8) as [Hlt | _]; [lra |].
  match goal with
  | |- 0 < _ * (1 / (1 + 50 * ?y * ?y)) =>
      generalize y; intros y0;
      assert (Hd : 0 < 1 / (1 + 50 * y0 * y0))
        by (apply Rdiv_lt_0_compat; [lra | nra]);
      set (w := 1 / (1 + 50 * y0 * y0)) in *
  end.
  nra.
Qed.

Lemma glitch_scales_displacement_witness :
  let U := set_iTime (11 * PI / 6)
             (createProgram (with_glitchAmount 0 (defaultProps 1)) (initialRefs 0)
                800 600 (Some LogoTexture)) in
  let p := (0.3, PI / 30) in
  0 < displace U p
  /\ getColor_displaced U p = p
  /\ getColor U (iTime U * 0.333333) p
     = getColor (Runs.set_uFlickerAmount 0 U) (iTime U * 0.333333) p.
Proof.
  intros U p. split; [exact displace_gate_open |].
  apply (glitch_scales_displacement U (iTime U * 0.333333) p).
  reflexivity.
Defined.

End ShaderFacts.

(** * Further properties of the ticker *)

Section WrapFacts.
Import JS LogoLoop.

Lemma trunc_integer (x : R) : exists z : Z, trunc x = IZR z.
Proof. unfold trunc. destruct (Rle_dec 0 x); eexists; reflexivity. Qed.

(** The double remainder is the floored modulo. *)
Lemma wrap_as_floor (x S : R) :
  0 < S -> wrap x S = x - S * IZR (Zfloor (x / S)).
Proof.
  intros HS. pose proof (wrap_range x S HS) as Hr.
  unfold wrap, rem in *.
  destruct (trunc_integer (x / S)) as [q1 E1].
  destruct (trunc_integer ((x - S * trunc (x / S) + S) / S)) as [q2 E2].
  rewrite E2 in *. rewrite E1 in *.
  assert (Hf : Zfloor (x / S) = (q1 + q2 - 1)%Z).
  { apply Zfloor_eq. rewrite minus_IZR, plus_IZR.
    pose proof (div_mul_cancel x S HS) as E.
    split; nra. }
  rewrite Hf, minus_IZR, plus_IZR. lra.
Qed.

Lemma wrap_in_range (x S : R) : 0 <= x < S -> wrap x S = x.
Proof.
  intros Hx. assert (HS : 0 < S) by lra.
  rewrite (wrap_as_floor x S HS).
  assert (Hf : Zfloor (x / S) = 0%Z).
  { apply Zfloor_eq. pose proof (div_mul_cancel x S HS) as E.
    split; [apply div_nonneg; lra |].
    assert (x / S < 1); [| lra].
    apply Rmult_lt_reg_r with S; [assumption |]. lra. }
  rewrite Hf. lra.
Qed.

(** X1.  For [S > 0], [((x % S) + S) % S] is the floored modulo
    [x - S * floor(x / S)] (GLSL's [mod]), for negative [x] as well,
    and adding whole multiples of [S] to [x] does not change it. *)
Theorem wrap_is_floored_modulo (x S : R) (k : Z) :
  0 < S ->
  wrap x S = x - S * IZR (Zfloor (x / S))
  /\ wrap x S = GLSL.mod_ x S
  /\ wrap (x + IZR k * S) S = wrap x S.
Proof.
  intros HS. split; [now apply wrap_as_floor |]. split.
  - rewrite (wrap_as_floor x S HS). reflexivity.
  - rewrite !wrap_as_floor by assumption.
    replace ((x + IZR k * S) / S) with (x / S + IZR k) by (field; lra).
    rewrite Zfloor_addz, plus_IZR. lra.
Qed.

Lemma wrap_is_floored_modulo_witness : wrap (-50 + IZR 3 * 200) 200 = wrap (-50) 200.
Proof.
  apply (wrap_is_floored_modulo (-50) 200 3). lra.
Defined.

(** X2.  When the offset is already in [[0, S)], restarting the effect
    (cleanup, then the effect body) leaves the offset, the velocity and
    the track translation where they were: a change of target does not
    move the strip or reset the easing. *)
Theorem restart_keeps_position (S target : R) (l : Loop) :
  0 <= offsetRef (snd l) < S ->
  trackX (snd l) = - offsetRef (snd l) ->
  let l' := step S l (Retarget target) in
  offsetRef (snd l') = offsetRef (snd l)
  /\ velocityRef (snd l') = velocityRef (snd l)
  /\ trackX (snd l') = trackX (snd l)
  /\ lastTimestampRef (snd l') = None
  /\ fst l' = target.
Proof.
  intros Hr Ht. cbn [step snd fst]. unfold effectStart, effectCleanup.
  destruct (Rgt_dec S 0) as [_ | Hn]; [| unfold Rgt in Hn; lra].
  cbn [offsetRef velocityRef trackX lastTimestampRef].
  rewrite (wrap_in_range _ _ Hr). repeat split; auto.
Qed.

Lemma restart_keeps_position_witness :
  let l := (120, {| lastTimestampRef := Some 16; offsetRef := 50;
                    velocityRef := 100; trackX := -50 |}) in
  offsetRef (snd (step 200 l (Retarget (-120)))) = 50.
Proof.
  intros l.
  apply (restart_keeps_position 200 (-120) l); cbn; lra.
Defined.

Lemma frames_app (target S : R) (ts : list R) (t : R) (r : Refs) :
  frames target S (ts ++ [t]) r = animate target S t (frames target S ts r).
Proof.
  revert r. induction ts as [| x ts IH]; intros r; cbn; [reflexivity | apply IH].
Qed.

(** X3.  While the sequence width is not positive (nothing measured
    yet), the effect body and every frame leave the offset and the
    track translation untouched; the velocity is still eased. *)
Theorem no_scroll_without_width (S target : R) (ts : list R) (r : Refs) :
  ~ S > 0 ->
  effectStart S r = r
  /\ offsetRef (frames target S ts r) = offsetRef r
  /\ trackX (frames target S ts r) = trackX r
  /\ velocityRef (frames target S ts r) - target
     = (velocityRef r - target)
       * exp (- totalDelta (lastTimestampRef r) ts / SMOOTH_TAU).
Proof.
  intros HS. split; [| split; [| split]].
  - unfold effectStart. destruct (Rgt_dec S 0); [contradiction | reflexivity].
  - revert r. induction ts as [| t ts IH]; intros r; cbn [frames]; [reflexivity |].
    rewrite IH. unfold animate. destruct (Rgt_dec S 0); [contradiction | reflexivity].
  - revert r. induction ts as [| t ts IH]; intros r; cbn [frames]; [reflexivity |].
    rewrite IH. unfold animate. destruct (Rgt_dec S 0); [contradiction | reflexivity].
  - apply frames_velocity_gap.
Qed.

Lemma no_scroll_without_width_witness :
  offsetRef (frames 120 0 [0; 16; 32] initialRefs) = 0.
Proof.
  apply (no_scroll_without_width 0 120 [0; 16; 32] initialRefs).
  unfold Rgt. lra.
Defined.

Lemma totalDelta_nonneg (last : option R) (ts : list R) : 0 <= totalDelta last ts.
Proof.
  revert last. induction ts as [| t ts IH]; intros last; cbn [totalDelta]; [lra |].
  pose proof (IH (Some t)) as Hrest. unfold Math_max.
  match goal with |- 0 <= Rmax 0 ?x / 1000 + _ => pose proof (Rmax_l 0 x) as Hmax end.
  unfold number in *. lra.
Qed.

Lemma exp_neg_le_1 (x : R) : 0 <= x -> 0 < exp (- x) <= 1.
Proof.
  intros Hx. split; [apply exp_pos |].
  rewrite <- exp_0. apply exp_le_mono. lra.
Qed.

(** X4.  Easing never overshoots: after any run of frames under one
    target, whatever the timestamps, the velocity lies between the
    velocity it started from and the target, and is no further from the
    target than it was. *)
Theorem velocity_never_overshoots (target S : R) (ts : list R) (r : Refs) :
  Rmin (velocityRef r) target <= velocityRef (frames target S ts r)
    <= Rmax (velocityRef r) target
  /\ Rabs (velocityRef (frames target S ts r) - target)
     <= Rabs (velocityRef r - target).
Proof.
  pose proof (frames_velocity_gap target S ts r) as Hg.
  assert (He : 0 < exp (- totalDelta (lastTimestampRef r) ts / SMOOTH_TAU) <= 1).
  { replace (- totalDelta (lastTimestampRef r) ts / SMOOTH_TAU)
      with (- (totalDelta (lastTimestampRef r) ts / SMOOTH_TAU))
      by (unfold SMOOTH_TAU; lra).
    apply exp_neg_le_1.
    pose proof (totalDelta_nonneg (lastTimestampRef r) ts).
    unfold SMOOTH_TAU. lra. }
  set (e := exp _) in *. set (v := velocityRef (frames target S ts r)) in *.
  set (v0 := velocityRef r) in *.
  split.
  - unfold Rmin, Rmax. destruct (Rle_dec v0 target); split; nra.
  - unfold Rabs. repeat destruct (Rcase_abs _); nra.
Qed.

(** X5.  A frame whose timestamp does not advance (the first frame
    after a start, or a timestamp at or before the last one) leaves the
    velocity as it is and, for an offset already in [[0, S)], the
    offset too. *)
Theorem stalled_frame_is_still (target S t : R) (r : Refs) :
  (lastTimestampRef r = None
   \/ exists last, lastTimestampRef r = Some last /\ t <= last) ->
  velocityRef (animate target S t r) = velocityRef r
  /\ (0 <= offsetRef r < S -> offsetRef (animate target S t r) = offsetRef r)
  /\ lastTimestampRef (animate target S t r) = Some t.
Proof.
  intros Hlast.
  assert (Hd : deltaTime t r = 0).
  { unfold deltaTime, Math_max.
    destruct Hlast as [-> | (last & -> & Hle)].
    - replace (t - t) with 0 by lra. rewrite Rmax_left; lra.
    - rewrite Rmax_left; lra. }
  assert (Hv : velocityRef (animate target S t r) = velocityRef r).
  { rewrite animate_velocity, Hd.
    replace (- 0 / SMOOTH_TAU) with 0 by (unfold SMOOTH_TAU; lra).
    rewrite exp_0. lra. }
  split; [exact Hv |]. split; [| apply animate_lastTimestamp].
  intros Hr. assert (HS : 0 < S) by lra.
  rewrite (animate_offset_formula target S t r HS), Hd.
  fold (wrap (offsetRef r + velocityRef (animate target S t r) * 0) S).
  rewrite Rmult_0_r, Rplus_0_r. now apply wrap_in_range.
Qed.

Lemma stalled_frame_is_still_witness :
  velocityRef (animate 120 200 1000 initialRefs) = 0.
Proof.
  apply (stalled_frame_is_still 120 200 1000 initialRefs).
  left. reflexivity.
Defined.

End WrapFacts.

Section DimensionFacts.
Import JS LogoLoop Runs.

Lemma Rmax_IZR (a b : Z) : Rmax (IZR a) (IZR b) = IZR (Z.max a b).
Proof.
  destruct (Z.le_ge_cases a b) as [H | H].
  - rewrite Z.max_r by assumption. apply Rmax_right. now apply IZR_le.
  - rewrite Z.max_l by assumption. apply Rmax_left. now apply IZR_le.
Qed.

(** What one measurement leaves in the state, when it is taken. *)
Lemma updateDimensions_taken (C S : R) (d : Dimensions) :
  S > 0 ->
  seqWidth (updateDimensions (Some C) (Some S) d) = IZR (Zceil S)
  /\ copyCount (updateDimensions (Some C) (Some S) d)
     = IZR (Z.max 2 (Zceil (C / S) + 2)).
Proof.
  intros HS. unfold updateDimensions, nullish.
  destruct (Rgt_dec S 0); [| contradiction].
  cbn [seqWidth copyCount]. split; [reflexivity |].
  unfold Math_max, Math_ceil, MIN_COPIES, COPY_HEADROOM.
  rewrite <- Rmax_IZR, plus_IZR. reflexivity.
Qed.

Lemma updateDimensions_ok (c s : option R) (d : Dimensions) :
  dimensions_ok d -> dimensions_ok (updateDimensions c s d).
Proof.
  intros Hd. unfold updateDimensions.
  destruct (Rgt_dec (nullish s 0) 0) as [HS | HS]; [| exact Hd].
  cbn [seqWidth copyCount]. split.
  - exists (Z.max 2 (Zceil (nullish c 0 / nullish s 0) + 2)). split; [| lia].
    unfold Math_max, Math_ceil, MIN_COPIES, COPY_HEADROOM.
    rewrite <- Rmax_IZR, plus_IZR. reflexivity.
  - exists (Zceil (nullish s 0)). split; [reflexivity |]. right.
    pose proof (Zceil_bound (nullish s 0)) as [_ Hc].
    assert (0 < IZR (Zceil (nullish s 0))) by (unfold Rgt in HS; lra).
    apply lt_IZR in H. lia.
Qed.

(** X6.  A measurement with no sequence element, or with a sequence
    width that is not positive, changes nothing; and after any run of
    measurements from the initial state the copy count is a whole
    number, at least 2, and the stored width is [0] or a whole number,
    at least 1. *)
Theorem dimensions_stay_well_formed
    (ms : list (option R * option R)) (c : option R) (S : R) (d : Dimensions) :
  updateDimensions c None d = d
  /\ (S <= 0 -> updateDimensions c (Some S) d = d)
  /\ dimensions_ok (measures ms initialDimensions).
Proof.
  split; [| split].
  - unfold updateDimensions, nullish.
    destruct (Rgt_dec 0 0) as [H | _]; [unfold Rgt in H; lra | reflexivity].
  - intros HS. unfold updateDimensions, nullish.
    destruct (Rgt_dec S 0) as [H | _]; [unfold Rgt in H; lra | reflexivity].
  - assert (H0 : dimensions_ok initialDimensions).
    { split; [exists 2%Z | exists 0%Z]; cbn; split; try reflexivity; lia. }
    revert H0. generalize initialDimensions.
    induction ms as [| [c' s'] ms IH]; intros d0 H0; cbn [measures]; [exact H0 |].
    apply IH. now apply updateDimensions_ok.
Qed.

Lemma dimensions_stay_well_formed_witness :
  updateDimensions (Some 500) (Some 0) initialDimensions = initialDimensions.
Proof.
  apply (dimensions_stay_well_formed [] (Some 500) 0 initialDimensions). lra.
Defined.

(** X7.  The copy count does not over-allocate: for [S > 0] and
    [C >= 0] the copies are less than three sequence widths wider than
    the container; and a wider container never gets fewer copies. *)
Theorem copyCount_tight_and_monotone (C C' S : R) (d d' : Dimensions) :
  S > 0 -> 0 <= C <= C' ->
  let k := copyCount (updateDimensions (Some C) (Some S) d) in
  let k' := copyCount (updateDimensions (Some C') (Some S) d') in
  k * S < C + 3 * S
  /\ k <= k'.
Proof.
  intros HS HC k k'.
  destruct (updateDimensions_taken C S d HS) as [_ Hk].
  destruct (updateDimensions_taken C' S d' HS) as [_ Hk'].
  subst k k'. rewrite Hk, Hk'.
  pose proof (Zceil_bound (C / S)) as [Hlo _].
  pose proof (div_mul_cancel C S ltac:(unfold Rgt in HS; lra)) as E.
  assert (Hmono : (Zceil (C / S) <= Zceil (C' / S))%Z).
  { apply Zceil_le. unfold Rdiv. apply Rmult_le_compat_r; [| lra].
    left. apply Rinv_0_lt_compat. unfold Rgt in HS. lra. }
  split.
  - destruct (Z.max_spec 2 (Zceil (C / S) + 2)) as [[_ ->] | [_ ->]].
    + rewrite plus_IZR. unfold Rgt in HS. nra.
    + unfold Rgt in HS. nra.
  - apply IZR_le. lia.
Qed.

Lemma copyCount_tight_and_monotone_witness :
  copyCount (updateDimensions (Some 500) (Some 200) initialDimensions) * 200
  < 500 + 3 * 200.
Proof.
  apply (copyCount_tight_and_monotone 500 500 200 initialDimensions initialDimensions);
    lra.
Defined.

End DimensionFacts.

(** * Further properties of the frame callback *)

Section FrameFacts.
Import JS GLSL Terminal Runs.

(** Case analysis on every guard of [update]. *)
Ltac frame_cases P :=
  unfold update;
  destruct (pageLoadAnimation P); destruct (mouseReact P); destruct (pause P);
  cbn [andb negb];
  repeat match goal with
         | |- context [if ?c then _ else _] => destruct c
         end.

(** X8.  A pointer event inside the container's box is stored in
    surface coordinates in [[0, 1]] with the vertical axis flipped (the
    top edge is [1], the bottom edge [0]); only the raw pointer ref
    changes. *)
Theorem handleMouseMove_normalized (clientX clientY rl rt rw rh : R) (r : Refs) :
  0 < rw -> 0 < rh ->
  rl <= clientX <= rl + rw -> rt <= clientY <= rt + rh ->
  let r' := handleMouseMove clientX clientY (rl, rt, rw, rh) r in
  0 <= vx (mouseRef r') <= 1
  /\ 0 <= vy (mouseRef r') <= 1
  /\ (clientY = rt -> vy (mouseRef r') = 1)
  /\ (clientY = rt + rh -> vy (mouseRef r') = 0)
  /\ (clientX = rl -> vx (mouseRef r') = 0)
  /\ smoothMouseRef r' = smoothMouseRef r
  /\ frozenTimeRef r' = frozenTimeRef r
  /\ loadAnimationStartRef r' = loadAnimationStartRef r.
Proof.
  intros Hw Hh Hx Hy. cbn. unfold vx, vy. cbn [fst snd].
  assert (Ex : 0 <= (clientX - rl) / rw <= 1).
  { split; [apply div_nonneg; lra |].
    apply Rmult_le_reg_r with rw; [assumption |].
    rewrite <- (div_mul_cancel _ rw Hw). lra. }
  assert (Ey : 0 <= (clientY - rt) / rh <= 1).
  { split; [apply div_nonneg; lra |].
    apply Rmult_le_reg_r with rh; [assumption |].
    rewrite <- (div_mul_cancel _ rh Hh). lra. }
  repeat split; try lra.
  - intros ->. replace ((rt - rt) / rh) with 0 by (field; lra). lra.
  - intros ->. replace ((rt + rh - rt) / rh) with 1 by (field; lra). lra.
  - intros ->. field. lra.
Qed.

Lemma handleMouseMove_normalized_witness :
  vy (mouseRef (handleMouseMove 400 100 (0, 100, 800, 600) (initialRefs 0))) = 1.
Proof.
  apply (handleMouseMove_normalized 400 100 0 100 800 600 (initialRefs 0)); lra.
Defined.

Lemma update_mouse_on (P : Props) (t : R) (s : Surface) :
  mouseReact P = true ->
  let m := mouseRef (refs s) in
  let sm := smoothMouseRef (refs s) in
  smoothMouseRef (refs (update P t s))
  = (vx sm + (vx m - vx sm) * 0.08, vy sm + (vy m - vy sm) * 0.08)
  /\ uMouse (uniforms (update P t s)) = smoothMouseRef (refs (update P t s))
  /\ mouseRef (refs (update P t s)) = mouseRef (refs s).
Proof.
  intros HP. cbn zeta. unfold update. rewrite HP.
  destruct (pageLoadAnimation P); destruct (pause P); cbn [andb negb];
    repeat match goal with
           | |- context [if ?c then _ else _] => destruct c
           end; cbn; repeat split; reflexivity.
Qed.

Lemma update_mouse_off (P : Props) (t : R) (s : Surface) :
  mouseReact P = false ->
  smoothMouseRef (refs (update P t s)) = smoothMouseRef (refs s)
  /\ uMouse (uniforms (update P t s)) = uMouse (uniforms s)
  /\ mouseRef (refs (update P t s)) = mouseRef (refs s).
Proof.
  intros HP. unfold update. rewrite HP.
  destruct (pageLoadAnimation P); destruct (pause P); cbn [andb negb];
    repeat match goal with
           | |- context [if ?c then _ else _] => destruct c
           end; cbn; repeat split; reflexivity.
Qed.

Lemma smoothing_gap (P : Props) (ts : list R) (s : Surface) :
  mouseReact P = true ->
  let s' := runUpdates P ts s in
  let m := mouseRef (refs s) in
  mouseRef (refs s') = m
  /\ vx (smoothMouseRef (refs s')) - vx m
     = 0.92 ^ List.length ts * (vx (smoothMouseRef (refs s)) - vx m)
  /\ vy (smoothMouseRef (refs s')) - vy m
     = 0.92 ^ List.length ts * (vy (smoothMouseRef (refs s)) - vy m).
Proof.
  intros HP. revert s. induction ts as [| t ts IH]; intros s; cbn zeta.
  - cbn. repeat split; unfold number; ring.
  - cbn [runUpdates List.length pow].
    destruct (IH (update P t s)) as (Hm & Hx & Hy). cbn zeta in Hm, Hx, Hy.
    destruct (update_mouse_on P t s HP) as (Es & _ & Em). cbn zeta in Es.
    rewrite Em in Hm, Hx, Hy. rewrite Es in Hx, Hy.
    unfold vx, vy in *. cbn [fst snd] in *.
    split; [exact Hm |].
    split; [rewrite Hx | rewrite Hy]; unfold number;
      generalize (0.92 ^ List.length ts); intros k; nra.
Qed.

(** X9.  With pointer reactivity on and the pointer at rest, each frame
    closes 8% of the distance between the smoothed and the raw
    position: after [n] frames the distance is [0.92 ^ n] times what it
    was, on each axis, so the smoothed position approaches the pointer
    from one side and never passes it; the [uMouse] uniform is the
    smoothed position. *)
Theorem pointer_smoothing_converges (P : Props) (pre : list R) (t : R) (s : Surface) :
  mouseReact P = true ->
  let s' := update P t (runUpdates P pre s) in
  let m := mouseRef (refs s) in
  let n := S (List.length pre) in
  vx (smoothMouseRef (refs s')) - vx m
    = 0.92 ^ n * (vx (smoothMouseRef (refs s)) - vx m)
  /\ vy (smoothMouseRef (refs s')) - vy m
     = 0.92 ^ n * (vy (smoothMouseRef (refs s)) - vy m)
  /\ Rabs (vx (smoothMouseRef (refs s')) - vx m)
     <= Rabs (vx (smoothMouseRef (refs s)) - vx m)
  /\ Rabs (vy (smoothMouseRef (refs s')) - vy m)
     <= Rabs (vy (smoothMouseRef (refs s)) - vy m)
  /\ uMouse (uniforms s') = smoothMouseRef (refs s')
  /\ mouseRef (refs s') = m.
Proof.
  intros HP s' m n.
  destruct (smoothing_gap P (pre ++ [t]) s HP) as (Hm & Hx & Hy).
  cbn zeta in Hm, Hx, Hy. rewrite runUpdates_app in Hm, Hx, Hy.
  rewrite length_app in Hx, Hy. cbn [List.length] in Hx, Hy.
  replace (List.length pre + 1)%nat with n in Hx, Hy by (subst n; lia).
  fold s' in Hm, Hx, Hy. fold m in Hx, Hy.
  assert (Hpow : 0 <= 0.92 ^ n <= 1).
  { split; [apply pow_le; lra |].
    rewrite <- (pow1 n). apply pow_incr. lra. }
  destruct (update_mouse_on P t (runUpdates P pre s) HP) as (_ & Eu & _).
  repeat split; try assumption.
  - rewrite Hx, Rabs_mult, (Rabs_right (0.92 ^ n)) by lra.
    pose proof (Rabs_pos (vx (smoothMouseRef (refs s)) - vx m)). nra.
  - rewrite Hy, Rabs_mult, (Rabs_right (0.92 ^ n)) by lra.
    pose proof (Rabs_pos (vy (smoothMouseRef (refs s)) - vy m)). nra.
Qed.

Lemma pointer_smoothing_converges_witness :
  let P := defaultProps 1 in
  let s := mount P 0 800 600 in
  uMouse (uniforms (update P 32 (runUpdates P [16] s)))
  = smoothMouseRef (refs (update P 32 (runUpdates P [16] s))).
Proof.
  intros P s.
  apply (pointer_smoothing_converges P [16] 32 s). reflexivity.
Defined.

(** X10.  With pointer reactivity off, no run of frames changes the
    smoothed position or the [uMouse] uniform. *)
Theorem pointer_inert_when_disabled (P : Props) (ts : list R) (s : Surface) :
  mouseReact P = false ->
  smoothMouseRef (refs (runUpdates P ts s)) = smoothMouseRef (refs s)
  /\ uMouse (uniforms (runUpdates P ts s)) = uMouse (uniforms s).
Proof.
  intros HP. revert s. induction ts as [| t ts IH]; intros s; cbn [runUpdates].
  - split; reflexivity.
  - destruct (IH (update P t s)) as [H1 H2].
    destruct (update_mouse_off P t s HP) as (E1 & E2 & _).
    rewrite H1, H2, E1, E2. split; reflexivity.
Qed.

Lemma pointer_inert_when_disabled_witness :
  let P := with_mouseReact false (defaultProps 1) in
  uMouse (uniforms (runUpdates P [16; 32; 48] (mount P 0 800 600))) = (0.5, 0.5).
Proof.
  intros P.
  apply (pointer_inert_when_disabled P [16; 32; 48] (mount P 0 800 600)).
  reflexivity.
Defined.

End FrameFacts.

Section FrameInvariants.
Import JS GLSL Terminal Runs.

Lemma update_static (P : Props) (t : R) (s : Surface) :
  staticUniforms (uniforms (update P t s)) = staticUniforms (uniforms s).
Proof.
  unfold update.
  destruct (pageLoadAnimation P); destruct (mouseReact P); destruct (pause P);
    cbn [andb negb];
    repeat match goal with
           | |- context [if ?c then _ else _] => destruct c
           end; reflexivity.
Qed.

(** X11.  Frames write only [iTime], [uPageLoadProgress] and [uMouse]:
    after any run of frames every other uniform is what the program
    was created with, so after a mount it is still the value taken
    from the props. *)
Theorem frames_keep_static_uniforms (P : Props) (off w h : R) (ts : list R)
    (s : Surface) :
  staticUniforms (uniforms (runUpdates P ts s)) = staticUniforms (uniforms s)
  /\ let u := uniforms (runUpdates P ts (mount P off w h)) in
     uScale u = scale P /\ uGridMul u = gridMul P /\ uDigitSize u = digitSize P
     /\ uScanlineIntensity u = scanlineIntensity P
     /\ uGlitchAmount u = glitchAmount P /\ uFlickerAmount u = flickerAmount P
     /\ uNoiseAmp u = noiseAmp P
     /\ uChromaticAberration u = chromaticAberration P
     /\ uDither u = ditherValue (dither P) /\ uCurvature u = curvature P
     /\ uTint u = tintVec P /\ uMouseStrength u = mouseStrength P
     /\ uBrightness u = brightness P
     /\ uUseMouse u = (if mouseReact P then 1 else 0)
     /\ uUsePageLoadAnimation u = (if pageLoadAnimation P then 1 else 0)
     /\ iResolution u = (w, h, w / h)
     /\ uLogoHeight u = 0.15 /\ uHasLogo u = 1.
Proof.
  assert (Hrun : forall s0,
             staticUniforms (uniforms (runUpdates P ts s0))
             = staticUniforms (uniforms s0)).
  { induction ts as [| t ts IH]; intros s0; cbn [runUpdates]; [reflexivity |].
    rewrite IH. apply update_static. }
  split; [apply Hrun |].
  cbn zeta. specialize (Hrun (mount P off w h)).
  set (u := uniforms (runUpdates P ts (mount P off w h))) in *.
  unfold staticUniforms, set_iTime, set_uPageLoadProgress, set_uMouse in Hrun.
  cbn in Hrun. injection Hrun. intros. repeat split; assumption.
Qed.

Lemma update_clockless_canonical (P : Props) (b : bool) (t : R) (s : Surface) :
  clockless (update (with_pause b P) t s)
  = clockless (update (with_pause false P) t (clockless s)).
Proof.
  destruct s as [[m sm fz st off] u]. destruct u.
  unfold update, clockless.
  cbn [refs uniforms mouseRef smoothMouseRef frozenTimeRef loadAnimationStartRef
       timeOffsetRef pause with_pause pageLoadAnimation mouseReact timeScale].
  destruct (pageLoadAnimation P); destruct (mouseReact P); destruct b;
    cbn [andb negb];
    repeat match goal with
           | |- context [if ?c then _ else _] => destruct c
           end; reflexivity.
Qed.

Lemma update_clockless (P : Props) (b b' : bool) (t : R) (s s' : Surface) :
  clockless s = clockless s' ->
  clockless (update (with_pause b P) t s) = clockless (update (with_pause b' P) t s').
Proof.
  intros H.
  rewrite (update_clockless_canonical P b t s),
          (update_clockless_canonical P b' t s'), H.
  reflexivity.
Qed.

(** X12.  Pausing freezes only the clock: whatever the pause flag is,
    a run of frames leaves the same pointer refs, recorded start,
    page-load progress, [uMouse] and every other uniform; only [iTime]
    and the frozen snapshot can differ. *)
Theorem pause_freezes_only_the_clock (P : Props) (ts : list R) (s : Surface) :
  clockless (runUpdates (with_pause true P) ts s)
  = clockless (runUpdates (with_pause false P) ts s)
  /\ pageLoadProgress (runUpdates (with_pause true P) ts s)
     = pageLoadProgress (runUpdates (with_pause false P) ts s)
  /\ smoothMouseRef (refs (runUpdates (with_pause true P) ts s))
     = smoothMouseRef (refs (runUpdates (with_pause false P) ts s)).
Proof.
  assert (H : forall s1 s2, clockless s1 = clockless s2 ->
              clockless (runUpdates (with_pause true P) ts s1)
              = clockless (runUpdates (with_pause false P) ts s2)).
  { induction ts as [| t ts IH]; intros s1 s2 E; cbn [runUpdates]; [exact E |].
    apply IH. now apply update_clockless. }
  specialize (H s s eq_refl).
  split; [exact H |].
  split.
  - change (uPageLoadProgress (uniforms
              (clockless (runUpdates (with_pause true P) ts s)))
            = uPageLoadProgress (uniforms
                (clockless (runUpdates (with_pause false P) ts s)))).
    now rewrite H.
  - change (smoothMouseRef (refs (clockless (runUpdates (with_pause true P) ts s)))
            = smoothMouseRef (refs
                (clockless (runUpdates (with_pause false P) ts s)))).
    now rewrite H.
Qed.

(** X13.  Re-running the effect between two frames does not disturb
    what the next frame pushes: the refs and [iTime] are the same as
    without the re-run, and so are the page-load progress once a start
    has been recorded and [uMouse] when the pointer is tracked. *)
Theorem remount_is_transparent (P : Props) (w h t : R) (s : Surface) :
  refs (update P t (remount P w h s)) = refs (update P t s)
  /\ iTime (uniforms (update P t (remount P w h s)))
     = iTime (uniforms (update P t s))
  /\ (pageLoadAnimation P = true -> 0 <= pageLoadStart s -> 0 < t ->
      pageLoadProgress (update P t (remount P w h s))
      = pageLoadProgress (update P t s))
  /\ (mouseReact P = true ->
      uMouse (uniforms (update P t (remount P w h s)))
      = uMouse (uniforms (update P t s))).
Proof.
  split; [| split; [| split]].
  - unfold update. cbn [remount refs uniforms].
    destruct (pageLoadAnimation P); destruct (mouseReact P); destruct (pause P);
      cbn [andb negb];
      repeat match goal with
             | |- context [if ?c then _ else _] => destruct c
             end; reflexivity.
  - unfold update. cbn [remount refs uniforms].
    destruct (pageLoadAnimation P); destruct (mouseReact P); destruct (pause P);
      cbn [andb negb];
      repeat match goal with
             | |- context [if ?c then _ else _] => destruct c
             end; reflexivity.
  - intros HP Hs Ht.
    destruct (update_progress P t (remount P w h s) HP) as [Hr _].
    destruct (update_progress P t s HP) as [Hu _].
    assert (Hst : pageLoadStart (update P t (remount P w h s))
                  = pageLoadStart (update P t s)).
    { destruct (update_start P t (remount P w h s) HP) as [A0 A1].
      destruct (update_start P t s HP) as [B0 B1].
      change (pageLoadStart (remount P w h s)) with (pageLoadStart s) in A0, A1.
      destruct (Req_dec_T (pageLoadStart s) 0) as [E | NE].
      - now rewrite (A0 E), (B0 E).
      - now rewrite (A1 NE), (B1 NE). }
    assert (Hpos : pageLoadStart (update P t s) > 0).
    { destruct (update_start P t s HP) as [B0 B1].
      destruct (Req_dec_T (pageLoadStart s) 0) as [E | NE].
      - rewrite (B0 E). exact Ht.
      - rewrite (B1 NE). unfold Rgt. lra. }
    rewrite Hr by (rewrite Hst; exact Hpos).
    rewrite (Hu Hpos), Hst. reflexivity.
  - intros HP.
    destruct (update_mouse_on P t (remount P w h s) HP) as (E1 & E2 & _).
    destruct (update_mouse_on P t s HP) as (F1 & F2 & _).
    cbn zeta in E1, F1. rewrite E2, F2, E1, F1. reflexivity.
Qed.

Lemma remount_is_transparent_witness :
  let P := defaultProps 1 in
  let s := update P 16 (mount P 0 800 600) in
  pageLoadProgress (update P 1016 (remount P 400 300 s))
  = pageLoadProgress (update P 1016 s).
Proof.
  intros P s.
  apply (remount_is_transparent P 400 300 1016 s).
  - reflexivity.
  - destruct (update_start P 16 (mount P 0 800 600) eq_refl) as [H0 _].
    subst s. rewrite H0 by reflexivity. lra.
  - lra.
Defined.

End FrameInvariants.

(** * Further properties of the fragment shader *)

Section DigitFacts.
Import JS GLSL Terminal Shader Runs.

Lemma fract_range (x : R) : 0 <= fract x < 1.
Proof.
  unfold fract, floor. pose proof (Zfloor_bound x). lra.
Qed.

Lemma step_cases (edge x : R) : step edge x = 0 \/ step edge x = 1.
Proof. unfold step. destruct (Rlt_dec x edge); [now left | now right]. Qed.

(** An intensity below the threshold [0.1] lights no pixel of a cell. *)
Lemma digit_glyph_dark (U : Uniforms) (p : vec2) (intensity : R) :
  intensity < 0.1 -> digit_glyph U p intensity = 0.
Proof.
  intros Hi. unfold digit_glyph. cbn zeta.
  set (i := floor _ - 2). set (j := floor _ - 2).
  assert (Hoff : step 0.1 (intensity - (i * i + j * j) * 0.0625) = 0).
  { unfold step. destruct (Rlt_dec _ 0.1) as [_ | Hn]; [reflexivity |].
    exfalso. apply Hn. nra. }
  rewrite Hoff. unfold number. ring.
Qed.

Lemma digit_glyph_range (U : Uniforms) (p : vec2) (intensity : R) :
  0 <= digit_glyph U p intensity < 1.
Proof.
  unfold digit_glyph. cbn zeta.
  match goal with
  | |- _ <= _ * (step 0.1 ?a * (0.2 + fract ?y * 0.8) * (0.75 + fract ?x * 0.25)) < _ =>
      pose proof (fract_range x) as Hx; pose proof (fract_range y) as Hy;
      set (fx := fract x) in *; set (fy := fract y) in *;
      destruct (step_cases 0.1 a) as [-> | ->]
  end;
  repeat match goal with
         | |- context [step ?e ?v] => destruct (step_cases e v) as [-> | ->]
         end;
  split; nra.
Qed.

(** X14.  Whatever the uniforms, the time and the point, [digit] gives
    a brightness in [[0, 1)]. *)
Theorem digit_in_unit_interval (U : Uniforms) (time : R) (p : vec2) :
  0 <= digit U time p < 1.
Proof. unfold digit. apply digit_glyph_range. Qed.

Lemma clamp_unit_high (x : R) : 1 <= x -> clamp x 0 1 = 1.
Proof.
  intros H. unfold clamp. rewrite Rmax_left by lra. rewrite Rmin_right; lra.
Qed.

Lemma clamp_unit_low (x : R) : x <= 0 -> clamp x 0 1 = 0.
Proof.
  intros H. unfold clamp. rewrite Rmax_right by lra. rewrite Rmin_left; lra.
Qed.

Lemma smoothstep_ends : smoothstep 0 1 0 = 0 /\ smoothstep 0 1 1 = 1.
Proof.
  unfold smoothstep. split.
  - rewrite clamp_unit_low by lra. lra.
  - rewrite clamp_unit_high by lra. lra.
Qed.

Lemma digit_pageLoad_revealed (U : Uniforms) (s : vec2) (intensity : R) :
  1 <= uPageLoadProgress U -> digit_pageLoad U s intensity = intensity.
Proof.
  intros HP. unfold digit_pageLoad.
  destruct (Rgt_dec (uUsePageLoadAnimation U) 0.5); [| reflexivity].
  cbn zeta.
  match goal with |- context [fract ?a] => pose proof (fract_range a) as Hf;
                                           set (c := fract a) in * end.
  rewrite clamp_unit_high by lra.
  rewrite (proj2 smoothstep_ends). unfold number. ring.
Qed.

Lemma digit_pageLoad_hidden (U : Uniforms) (s : vec2) (intensity : R) :
  uUsePageLoadAnimation U > 0.5 -> uPageLoadProgress U <= 0 ->
  digit_pageLoad U s intensity = 0.
Proof.
  intros HA HP. unfold digit_pageLoad.
  destruct (Rgt_dec (uUsePageLoadAnimation U) 0.5); [| contradiction].
  cbn zeta.
  match goal with |- context [fract ?a] => pose proof (fract_range a) as Hf;
                                           set (c := fract a) in * end.
  rewrite clamp_unit_low by lra.
  rewrite (proj1 smoothstep_ends). unfold number. ring.
Qed.

Lemma digit_pageLoad_off (U : Uniforms) (s : vec2) (intensity : R) :
  digit_pageLoad (set_uUsePageLoadAnimation 0 U) s intensity = intensity.
Proof.
  unfold digit_pageLoad. cbn [uUsePageLoadAnimation set_uUsePageLoadAnimation].
  destruct (Rgt_dec 0 0.5) as [G | _]; [unfold Rgt in G; lra | reflexivity].
Qed.

(** X15.  Once the page-load progress is [1] (or more) the fade is
    over: the page-load block leaves every cell's intensity as it is,
    and [digit] gives what it gives with the animation switched off. *)
Theorem pageLoad_complete_is_transparent (U : Uniforms) (time : R) (p : vec2) :
  1 <= uPageLoadProgress U ->
  (forall s intensity, digit_pageLoad U s intensity = intensity)
  /\ digit U time p = digit (set_uUsePageLoadAnimation 0 U) time p.
Proof.
  intros HP. split.
  - intros s intensity. now apply digit_pageLoad_revealed.
  - unfold digit. rewrite digit_pageLoad_revealed by assumption.
    rewrite digit_pageLoad_off. reflexivity.
Qed.

Lemma pageLoad_complete_is_transparent_witness :
  let U := set_uPageLoadProgress 1
             (createProgram (defaultProps 1) (initialRefs 0) 800 600
                (Some LogoTexture)) in
  digit U 0 (0.3, 0.4) = digit (set_uUsePageLoadAnimation 0 U) 0 (0.3, 0.4).
Proof.
  intros U.
  apply (pageLoad_complete_is_transparent U 0 (0.3, 0.4)).
  cbn. lra.
Defined.

Lemma digit_hidden (U : Uniforms) (time : R) (p : vec2) :
  uUsePageLoadAnimation U > 0.5 -> uPageLoadProgress U <= 0 ->
  digit U time p = 0.
Proof.
  intros HA HP. unfold digit.
  rewrite digit_pageLoad_hidden by assumption.
  apply digit_glyph_dark. lra.
Qed.

(** X16.  With the page-load animation on and the progress at [0] (the
    value the program is created with), every cell is dark: [digit] is
    [0] everywhere and [getColor] is black. *)
Theorem pageLoad_start_is_black (U : Uniforms) (time : R) (p : vec2) :
  uUsePageLoadAnimation U > 0.5 -> uPageLoadProgress U <= 0 ->
  digit U time p = 0 /\ getColor U time p = (0, 0, 0).
Proof.
  intros HA HP. split; [now apply digit_hidden |].
  unfold getColor. cbn zeta.
  rewrite !(digit_hidden U time) by assumption.
  unfold v3add, v3scale, v3splat, red, green, blue. cbn [fst snd].
  unfold number. repeat f_equal; ring.
Qed.

Lemma pageLoad_start_is_black_witness :
  let U := createProgram (defaultProps 1) (initialRefs 0) 800 600
             (Some LogoTexture) in
  getColor U 0 (0.3, 0.4) = (0, 0, 0).
Proof.
  intros U.
  apply (pageLoad_start_is_black U 0 (0.3, 0.4)); cbn; lra.
Defined.

End DigitFacts.

Section GlitchFacts.
Import JS GLSL Terminal Shader Runs.

Lemma Rabs_mult_le (x y a b : R) :
  Rabs x <= a -> Rabs y <= b -> Rabs (x * y) <= a * b.
Proof.
  intros Hx Hy. rewrite Rabs_mult.
  pose proof (Rabs_pos x). pose proof (Rabs_pos y). nra.
Qed.

Lemma Rabs_le_of_bounds (x b : R) : - b <= x <= b -> Rabs x <= b.
Proof. intros H. unfold Rabs. destruct (Rcase_abs x); lra. Qed.

Lemma onOff_bound (U : Uniforms) (a b c : R) :
  Rabs (onOff U a b c) <= Rabs (uFlickerAmount U).
Proof.
  unfold onOff.
  destruct (step_cases c (sin (iTime U + a * cos (iTime U * b)))) as [-> | ->].
  - rewrite Rmult_0_l, Rabs_R0. apply Rabs_pos.
  - rewrite Rmult_1_l. lra.
Qed.

Lemma displace_bound (U : Uniforms) (look : vec2) :
  Rabs (displace U look) <= 0.025 * Rabs (uFlickerAmount U).
Proof.
  unfold displace. cbn zeta.
  set (y := vy look - mod_ (iTime U * 0.25) 1).
  assert (Hw : Rabs (1 / (1 + 50 * y * y)) <= 1).
  { assert (Hd : 1 <= 1 + 50 * y * y) by nra.
    apply Rabs_le_of_bounds. split.
    - apply Rle_trans with 0; [lra |].
      apply div_nonneg; lra.
    - apply Rmult_le_reg_r with (1 + 50 * y * y); [lra |].
      rewrite <- (div_mul_cancel 1 (1 + 50 * y * y)) by lra. lra. }
  assert (Hs : Rabs (sin (vy look * 20 + iTime U)) <= 1).
  { apply Rabs_le_of_bounds. apply SIN_bound. }
  assert (Hc : Rabs (1 + cos (iTime U * 60)) <= 2).
  { apply Rabs_le_of_bounds. pose proof (COS_bound (iTime U * 60)). lra. }
  assert (Hk : Rabs 0.0125 <= 0.0125) by (rewrite Rabs_right; lra).
  pose proof (onOff_bound U 4 2 0.8) as Ho.
  replace (0.025 * Rabs (uFlickerAmount U))
    with (1 * 0.0125 * Rabs (uFlickerAmount U) * 2 * 1) by lra.
  apply Rabs_mult_le; [| exact Hw].
  apply Rabs_mult_le; [| exact Hc].
  apply Rabs_mult_le; [| exact Ho].
  apply Rabs_mult_le; [exact Hs | exact Hk].
Qed.

(** X17.  The glitch displacement is bounded by the flicker amount,
    [|displace| <= 0.025 * |uFlickerAmount|], at every point and time;
    with [uFlickerAmount = 0] there is no displacement and [getColor]
    samples at the point it is given, whatever [uGlitchAmount]. *)
Theorem flicker_gates_the_glitch (U : Uniforms) (p : vec2) :
  Rabs (displace U p) <= 0.025 * Rabs (uFlickerAmount U)
  /\ (uFlickerAmount U = 0 ->
      displace U p = 0 /\ getColor_displaced U p = p).
Proof.
  split; [apply displace_bound |].
  intros HF. pose proof (displace_bound U p) as Hb.
  rewrite HF, Rabs_R0, Rmult_0_r in Hb.
  assert (Hd : displace U p = 0).
  { pose proof (Rabs_pos (displace U p)).
    destruct (Req_dec_T (displace U p) 0) as [E | NE]; [exact E |].
    apply Rabs_pos_lt in NE. lra. }
  split; [exact Hd |].
  unfold getColor_displaced. rewrite Hd. destruct p as [x y].
  destruct (Req_dec_T (uGlitchAmount U) 1); cbn [vx vy fst snd];
    unfold number; f_equal; ring.
Qed.

Lemma flicker_gates_the_glitch_witness :
  let U := createProgram (with_flickerAmount 0 (defaultProps 1)) (initialRefs 0)
             800 600 (Some LogoTexture) in
  displace U (0.3, 0.4) = 0 /\ getColor_displaced U (0.3, 0.4) = (0.3, 0.4).
Proof.
  intros U. apply (flicker_gates_the_glitch U (0.3, 0.4)). reflexivity.
Defined.

(** X18.  The barrel remap is a radial scaling about the centre of the
    surface: it moves [uv] along the line through [(0.5, 0.5)] by the
    factor [1 + uCurvature * r2], with [r2] the squared length of
    [2 * uv - 1]; so it fixes the centre and commutes with the point
    reflection [uv -> 1 - uv]. *)
Theorem barrel_is_radial (U : Uniforms) (uv : vec2) :
  let r2 := dot (vsubs (vscale uv 2) 1) (vsubs (vscale uv 2) 1) in
  vsubs (barrel U uv) 0.5 = vscale (vsubs uv 0.5) (1 + uCurvature U * r2)
  /\ barrel U (0.5, 0.5) = (0.5, 0.5)
  /\ barrel U (1 - vx uv, 1 - vy uv)
     = (1 - vx (barrel U uv), 1 - vy (barrel U uv)).
Proof.
  destruct uv as [x y]. cbn zeta.
  unfold barrel, vadds, vsubs, vscale, dot, vx, vy. cbn [fst snd].
  generalize (uCurvature U). unfold number. intros k.
  repeat split; f_equal; nra.
Qed.

(** X19.  [rotate] builds a rotation: multiplying by it keeps the dot
    product of two vectors, hence lengths and distances. *)
Theorem rotate_preserves_dot (angle : R) (v w : vec2) :
  dot (mulmv (rotate angle) v) (mulmv (rotate angle) w) = dot v w
  /\ length (mulmv (rotate angle) v) = length v.
Proof.
  assert (H : forall a b : vec2,
             dot (mulmv (rotate angle) a) (mulmv (rotate angle) b) = dot a b).
  { intros [ax ay] [bx by_]. unfold dot, mulmv, rotate, vx, vy.
    cbn [fst snd m00 m01 m10 m11].
    pose proof (sin2_cos2 angle) as E. unfold Rsqr in E.
    set (s := sin angle) in *. set (c := cos angle) in *. unfold number.
    transitivity ((s * s + c * c) * (ax * bx + ay * by_)); [ring |].
    rewrite E. ring. }
  split; [apply H |]. unfold length. now rewrite H.
Qed.

End GlitchFacts.

Section ShadingExt.
Import JS GLSL Terminal Shader Runs.

Variables U U' : Uniforms.
Hypothesis Hsame : sameShading U U'.

Lemma fbm_ext (time : R) (p : vec2) : fbm U time p = fbm U' time p.
Proof.
  destruct Hsame as (_ & _ & _ & _ & _ & _ & _ & E & _).
  unfold fbm. rewrite E. reflexivity.
Qed.

Lemma pattern_ext (time : R) (p : vec2) : pattern U time p = pattern U' time p.
Proof. unfold pattern. rewrite !fbm_ext. reflexivity. Qed.

Lemma digit_mouse_ext (s : vec2) (i : R) : digit_mouse U s i = digit_mouse U' s i.
Proof.
  destruct Hsame as (E1 & E2 & _ & _ & _ & _ & _ & _ & _ & E3 & E4 & E5 & _).
  unfold digit_mouse, ripple, mouseInfluence. rewrite E1, E2, E3, E4, E5.
  reflexivity.
Qed.

Lemma digit_pageLoad_ext (s : vec2) (i : R) :
  digit_pageLoad U s i = digit_pageLoad U' s i.
Proof.
  destruct Hsame as (_ & _ & _ & _ & _ & _ & _ & _ & _ & _ & _ & _ & E1 & E2).
  unfold digit_pageLoad. rewrite E1, E2. reflexivity.
Qed.

Lemma digit_glyph_ext (p : vec2) (i : R) : digit_glyph U p i = digit_glyph U' p i.
Proof.
  destruct Hsame as (_ & _ & _ & E & _).
  unfold digit_glyph. rewrite E. reflexivity.
Qed.

Lemma digit_ext (time : R) (p : vec2) : digit U time p = digit U' time p.
Proof.
  destruct Hsame as (_ & _ & E & _).
  unfold digit. rewrite E, pattern_ext, digit_mouse_ext, digit_pageLoad_ext,
    digit_glyph_ext.
  reflexivity.
Qed.

Lemma displace_ext (look : vec2) : displace U look = displace U' look.
Proof.
  destruct Hsame as (E1 & _ & _ & _ & _ & _ & E2 & _).
  unfold displace, onOff. rewrite E1, E2. reflexivity.
Qed.

Lemma getColor_displaced_ext (p : vec2) :
  getColor_displaced U p = getColor_displaced U' p.
Proof.
  destruct Hsame as (_ & _ & _ & _ & _ & E & _).
  unfold getColor_displaced. rewrite E, displace_ext. reflexivity.
Qed.

Lemma getColor_ext (time : R) (p : vec2) : getColor U time p = getColor U' time p.
Proof.
  destruct Hsame as (_ & _ & _ & _ & E & _).
  unfold getColor. rewrite E, getColor_displaced_ext, !digit_ext. reflexivity.
Qed.

Lemma barrel_ext (uv : vec2) : barrel U uv = barrel U' uv.
Proof.
  destruct Hsame as (_ & _ & _ & _ & _ & _ & _ & _ & E & _).
  unfold barrel. rewrite E. reflexivity.
Qed.

Lemma main_uv_ext (vUv : vec2) : main_uv U vUv = main_uv U' vUv.
Proof.
  destruct Hsame as (_ & _ & _ & _ & _ & _ & _ & _ & E & _).
  unfold main_uv. rewrite E, barrel_ext. reflexivity.
Qed.

Lemma main_logoUv_ext (vUv uv : vec2) : main_logoUv U vUv uv = main_logoUv U' vUv uv.
Proof.
  destruct Hsame as (_ & _ & _ & _ & _ & _ & _ & _ & E & _).
  unfold main_logoUv. rewrite E, barrel_ext. reflexivity.
Qed.

End ShadingExt.

Section MainFacts.
Import JS GLSL Terminal Shader Runs.

Lemma hash21_range (p : vec2) : 0 <= hash21 p < 1.
Proof. unfold hash21. apply fract_range. Qed.

Lemma mix3_zero (col c : vec3) : mix3 col c 0 = col.
Proof.
  destruct col as [[r g] b]. unfold mix3, v3add, v3scale, red, green, blue.
  cbn [fst snd]. unfold number. repeat f_equal; ring.
Qed.

Lemma sameShading_set_uDither (v : R) (U : Uniforms) : sameShading U (set_uDither v U).
Proof. repeat split. Qed.

Lemma sameShading_set_uHasLogo (v : R) (U : Uniforms) : sameShading U (set_uHasLogo v U).
Proof. repeat split. Qed.

(** Rewrites the shader functions called on [U'] into calls on [U]. *)
Ltac shade_as U U' Hs :=
  rewrite <- ?(main_uv_ext U U' Hs);
  rewrite <- ?(main_logoUv_ext U U' Hs);
  rewrite <- ?(displace_ext U U' Hs);
  rewrite <- ?(getColor_ext U U' Hs).

(** X20.  Dithering only adds one small offset to the three channels:
    with [uDither > 0] the colour is the undithered colour plus
    [(hash21(gl_FragCoord) - 0.5) * uDither * 0.003922] on each channel,
    at most [0.001961 * uDither] in size; with [uDither <= 0] the colour
    does not depend on [gl_FragCoord] at all. *)
Theorem dither_is_a_small_offset (U : Uniforms) (tex : sampler2D)
    (vUv fc fc' : vec2) :
  (uDither U > 0 ->
     let d := (hash21 fc - 0.5) * (uDither U * 0.003922) in
     rgb (main U tex vUv fc) = v3adds (rgb (main (set_uDither 0 U) tex vUv fc)) d
     /\ Rabs d <= 0.001961 * uDither U)
  /\ (uDither U <= 0 -> main U tex vUv fc = main U tex vUv fc').
Proof.
  split.
  - intros HD d. split.
    + unfold main. cbv zeta.
      cbn [set_uDither iTime iResolution uScale uChromaticAberration uDither
           uTint uBrightness uLogoHeight uHasLogo].
      shade_as U (set_uDither 0 U) (sameShading_set_uDither 0 U).
      destruct (Rgt_dec (uDither U) 0) as [_ | Hn]; [| contradiction].
      destruct (Rgt_dec 0 0) as [G | _]; [unfold Rgt in G; lra |].
      unfold rgb. cbn [fst]. reflexivity.
    + pose proof (hash21_range fc) as Hh. subst d.
      apply Rabs_le_of_bounds. unfold Rgt in HD. split; nra.
  - intros HD. unfold main.
    destruct (Rgt_dec (uDither U) 0) as [G | _]; [unfold Rgt in G; lra |].
    reflexivity.
Qed.

Lemma dither_is_a_small_offset_witness :
  let U := createProgram (defaultProps 1) (initialRefs 0) 800 600
             (Some LogoTexture) in
  main U (fun _ => (0, 0, 0, 0)) (0.3, 0.4) (10, 20)
  = main U (fun _ => (0, 0, 0, 0)) (0.3, 0.4) (11, 21).
Proof.
  intros U.
  apply (dither_is_a_small_offset U (fun _ => (0, 0, 0, 0)) (0.3, 0.4) (10, 20) (11, 21)).
  cbn [U createProgram uDither defaultProps dither ditherValue]. lra.
Defined.

(** X21.  The overlay texture is read only in the top band of the
    surface: where [uv.y <= 1 - uLogoHeight] the colour does not depend
    on the texture at all; and a texture that is transparent everywhere
    gives the colour the shader gives with the overlay switched off. *)
Theorem overlay_stays_in_its_band (U : Uniforms) (tex tex' : sampler2D)
    (vUv fc : vec2) :
  (vy (main_uv U vUv) <= 1 - uLogoHeight U ->
     main U tex vUv fc = main U tex' vUv fc)
  /\ ((forall c, alpha (tex c) = 0) ->
      main U tex vUv fc = main (set_uHasLogo 0 U) tex vUv fc).
Proof.
  split.
  - intros Hband. unfold main. cbv zeta.
    destruct (Rgt_dec (uHasLogo U) 0.5); [| reflexivity].
    destruct (Rgt_dec (vy (main_uv U vUv)) (1 - uLogoHeight U)) as [G | _];
      [unfold Rgt in G; lra | reflexivity].
  - intros Ha. unfold main. cbv zeta.
    cbn [set_uHasLogo iTime iResolution uScale uChromaticAberration uDither
         uTint uBrightness uLogoHeight uHasLogo].
    shade_as U (set_uHasLogo 0 U) (sameShading_set_uHasLogo 0 U).
    destruct (Rgt_dec 0 0.5) as [G | _]; [unfold Rgt in G; lra |].
    destruct (Rgt_dec (uHasLogo U) 0.5); [| reflexivity].
    destruct (Rgt_dec (vy (main_uv U vUv)) (1 - uLogoHeight U)); [| reflexivity].
    rewrite Ha, mix3_zero. reflexivity.
Qed.

Lemma overlay_stays_in_its_band_witness :
  let U := createProgram (defaultProps 1) (initialRefs 0) 800 600
             (Some LogoTexture) in
  main U (fun _ => (1, 1, 1, 0)) (0.3, 0.9) (10, 20)
  = main (set_uHasLogo 0 U) (fun _ => (1, 1, 1, 0)) (0.3, 0.9) (10, 20).
Proof.
  intros U.
  apply (overlay_stays_in_its_band U (fun _ => (1, 1, 1, 0)) (fun _ => (1, 1, 1, 0))
           (0.3, 0.9) (10, 20)).
  intros c. reflexivity.
Defined.

End MainFacts.

(** * Further properties of the rasterizer *)

Section RasterRuns.
Import JS Terminal Rasterizer Runs.

Context {Markup Bitmap : Type}.
Variable drawImage : Capture Markup -> Bitmap.

(** X23.  The texture holds whichever image finished loading last, not
    the latest capture: after two ticks, if the first tick's image
    loads after the second's, the draw samples the older capture; if
    they load in order, the newer one. *)
Theorem late_load_overwrites (dpr : R) (t : WebGLTexture)
    (el1 el2 : Element Markup) (w : World Markup Bitmap) :
  pendingImages w = [] ->
  let c1 := mkCapture (content el1) (rectWidth _ el1) (rectHeight _ el1)
              (rectWidth _ el1 * dpr) (rectHeight _ el1 * dpr) dpr in
  let c2 := mkCapture (content el2) (rectWidth _ el2) (rectHeight _ el2)
              (rectWidth _ el2 * dpr) (rectHeight _ el2 * dpr) dpr in
  (exists w',
      run drawImage dpr (Some t) w
        [Tick (Some el1) true; Tick (Some el2) true; Loaded 1; Loaded 0; Draw]
      = Some (w', [Some (drawImage c1)]))
  /\ (exists w',
         run drawImage dpr (Some t) w
           [Tick (Some el1) true; Tick (Some el2) true; Loaded 0; Loaded 0; Draw]
         = Some (w', [Some (drawImage c2)])).
Proof.
  intros Hp c1 c2. split; eexists; cbn; unfold imageLoaded; cbn;
    rewrite Hp; cbn; reflexivity.
Qed.

End RasterRuns.

Lemma late_load_overwrites_witness :
  let w := Rasterizer.mkWorld (Markup := nat) (Rasterizer.mkGl (Bitmap := nat) None 0) [] in
  exists w',
    Rasterizer.run (fun c => Rasterizer.capData c) 1 (Some Terminal.LogoTexture) w
      [Rasterizer.Tick (Some (Rasterizer.mkElement 800 52 1%nat)) true;
       Rasterizer.Tick (Some (Rasterizer.mkElement 800 52 2%nat)) true;
       Rasterizer.Loaded 1; Rasterizer.Loaded 0; Rasterizer.Draw]
    = Some (w', [Some 1%nat]).
Proof.
  intros w.
  apply (late_load_overwrites (fun c => Rasterizer.capData c) 1 Terminal.LogoTexture
           (Rasterizer.mkElement 800 52 1%nat) (Rasterizer.mkElement 800 52 2%nat) w).
  reflexivity.
Defined.

(** * Properties of the helpers *)

Section ColourFacts.
Import JS Util.

Lemma hexDigit_range (c : ascii) (v : Z) : hexDigit c = Some v -> (0 <= v < 16)%Z.
Proof.
  intros H.
  destruct c as [[] [] [] [] [] [] [] []]; vm_compute in H; try discriminate H;
    injection H as <-; lia.
Qed.

(** A digit is neither white space nor the hash sign. *)
Lemma hexDigit_plain (c : ascii) (v : Z) :
  hexDigit c = Some v ->
  isWhiteSpace c = false /\ Ascii.eqb c "#"%char = false.
Proof.
  intros H.
  destruct c as [[] [] [] [] [] [] [] []]; vm_compute in H; try discriminate H;
    split; reflexivity.
Qed.

(** Two leading digits leave nothing for [parseInt] to skip: no sign,
    and no [0x], since [x] is not a digit. *)
Lemma parseInt16_digits (c1 c2 : ascii) (r : string) (v1 v2 : Z) :
  hexDigit c1 = Some v1 -> hexDigit c2 = Some v2 ->
  parseInt16 (String c1 (String c2 r)) = Some (digitsValue (String c1 (String c2 r)) 0).
Proof.
  intros H1 H2. rewrite <- (Z.mul_1_l (digitsValue _ _)).
  destruct c1 as [[] [] [] [] [] [] [] []]; vm_compute in H1; try discriminate H1;
    clear H1;
    destruct c2 as [[] [] [] [] [] [] [] []]; vm_compute in H2; try discriminate H2;
    reflexivity.
Qed.

Lemma toInt32_small (z : Z) : (0 <= z < 2 ^ 31)%Z -> toInt32 (Some z) = z.
Proof. intros H. unfold toInt32. rewrite Z.mod_small; lia. Qed.

Lemma land_255 (x : Z) : Z.land x 255 = (x mod 256)%Z.
Proof. change 255%Z with (Z.ones 8). rewrite Z.land_ones by lia. reflexivity. Qed.

Lemma channels_of_bytes (r g b : Z) :
  (0 <= r < 256)%Z -> (0 <= g < 256)%Z -> (0 <= b < 256)%Z ->
  let num := Some ((r * 256 + g) * 256 + b)%Z in
  channel num 16 = r /\ channel num 8 = g /\ channel num 0 = b.
Proof.
  intros Hr Hg Hb num. unfold channel, num.
  rewrite toInt32_small by lia.
  rewrite !land_255, !Z.shiftr_div_pow2 by lia.
  change (2 ^ 16)%Z with 65536%Z. change (2 ^ 8)%Z with 256%Z.
  change (2 ^ 0)%Z with 1%Z.
  repeat split.
  - assert (((r * 256 + g) * 256 + b) / 65536 = r)%Z as ->
      by (symmetry; apply Z.div_unique with (g * 256 + b)%Z; lia).
    apply Z.mod_small; lia.
  - assert (((r * 256 + g) * 256 + b) / 256 = r * 256 + g)%Z as ->
      by (symmetry; apply Z.div_unique with b; lia).
    rewrite Z.add_comm, Z.mod_add by lia. apply Z.mod_small; lia.
  - rewrite Z.div_1_r.
    replace ((r * 256 + g) * 256 + b)%Z with (b + (r * 256 + g) * 256)%Z by lia.
    rewrite Z.mod_add by lia. apply Z.mod_small; lia.
Qed.

Lemma channel_range (num : option Z) (k : Z) : (0 <= channel num k <= 255)%Z.
Proof.
  unfold channel. rewrite land_255.
  pose proof (Z.mod_pos_bound (Z.shiftr (toInt32 num) k) 256). lia.
Qed.

Lemma unit_of_byte (k : Z) : (0 <= k <= 255)%Z -> 0 <= IZR k / 255 <= 1.
Proof.
  intros [H0 H1]. apply IZR_le in H0, H1. lra.
Qed.

(** The colour of a cleaned string of six digits. *)
Lemma rgb_of_six (c1 c2 c3 c4 c5 c6 : ascii) (v1 v2 v3 v4 v5 v6 : Z) :
  hexDigit c1 = Some v1 -> hexDigit c2 = Some v2 -> hexDigit c3 = Some v3 ->
  hexDigit c4 = Some v4 -> hexDigit c5 = Some v5 -> hexDigit c6 = Some v6 ->
  let num := parseInt16
               (String c1 (String c2 (String c3 (String c4 (String c5
                  (String c6 EmptyString)))))) in
  channel num 16 = (v1 * 16 + v2)%Z
  /\ channel num 8 = (v3 * 16 + v4)%Z
  /\ channel num 0 = (v5 * 16 + v6)%Z.
Proof.
  intros H1 H2 H3 H4 H5 H6 num. subst num.
  rewrite (parseInt16_digits c1 c2 _ v1 v2 H1 H2).
  cbn [digitsValue]. rewrite H1, H2, H3, H4, H5, H6.
  pose proof (hexDigit_range _ _ H1). pose proof (hexDigit_range _ _ H2).
  pose proof (hexDigit_range _ _ H3). pose proof (hexDigit_range _ _ H4).
  pose proof (hexDigit_range _ _ H5). pose proof (hexDigit_range _ _ H6).
  replace ((((((0 * 16 + v1) * 16 + v2) * 16 + v3) * 16 + v4) * 16 + v5) * 16 + v6)%Z
    with (((v1 * 16 + v2) * 256 + (v3 * 16 + v4)) * 256 + (v5 * 16 + v6))%Z by lia.
  apply channels_of_bytes; lia.
Qed.

(** X24.  For six hexadecimal digits, with or without the leading
    [#], [hexToRgb] gives the three bytes the digit pairs spell, each
    divided by 255: the channels are in [[0, 1]]. *)
Theorem hexToRgb_six_digits (c1 c2 c3 c4 c5 c6 : ascii) (v1 v2 v3 v4 v5 v6 : Z) :
  hexDigit c1 = Some v1 -> hexDigit c2 = Some v2 -> hexDigit c3 = Some v3 ->
  hexDigit c4 = Some v4 -> hexDigit c5 = Some v5 -> hexDigit c6 = Some v6 ->
  let s := String c1 (String c2 (String c3 (String c4 (String c5
             (String c6 EmptyString))))) in
  let rgb := (IZR (v1 * 16 + v2) / 255, IZR (v3 * 16 + v4) / 255,
              IZR (v5 * 16 + v6) / 255) in
  hexToRgb s = rgb
  /\ hexToRgb (String "#" s) = rgb
  /\ 0 <= IZR (v1 * 16 + v2) / 255 <= 1
  /\ 0 <= IZR (v3 * 16 + v4) / 255 <= 1
  /\ 0 <= IZR (v5 * 16 + v6) / 255 <= 1.
Proof.
  intros H1 H2 H3 H4 H5 H6 s rgb.
  destruct (hexDigit_plain _ _ H1) as [W1 E1]. destruct (hexDigit_plain _ _ H2) as [W2 E2].
  destruct (hexDigit_plain _ _ H3) as [W3 E3]. destruct (hexDigit_plain _ _ H4) as [W4 E4].
  destruct (hexDigit_plain _ _ H5) as [W5 E5]. destruct (hexDigit_plain _ _ H6) as [W6 E6].
  destruct (rgb_of_six _ _ _ _ _ _ _ _ _ _ _ _ H1 H2 H3 H4 H5 H6) as (R1 & R2 & R3).
  cbn zeta in R1, R2, R3.
  assert (Hclean : trim (removeFirst "#" s) = s).
  { subst s. cbn [removeFirst]. rewrite E1, E2, E3, E4, E5, E6.
    unfold trim. cbn [trimStart]. rewrite W1. cbn [reverse trimStart].
    rewrite W6. reflexivity. }
  assert (Hs : hexToRgb s = rgb).
  { unfold hexToRgb. rewrite Hclean. subst s. cbn [String.length Nat.eqb].
    rewrite R1, R2, R3. reflexivity. }
  split; [exact Hs |]. split.
  - rewrite <- Hs. unfold hexToRgb at 1. cbn [removeFirst Ascii.eqb Bool.eqb].
    unfold hexToRgb. rewrite Hclean.
    assert (Hc : trim s = s).
    { subst s. unfold trim. cbn [trimStart]. rewrite W1. cbn [reverse trimStart].
      rewrite W6. reflexivity. }
    rewrite Hc. reflexivity.
  - pose proof (channel_range (parseInt16 s) 16) as B1.
    pose proof (channel_range (parseInt16 s) 8) as B2.
    pose proof (channel_range (parseInt16 s) 0) as B3.
    subst s. rewrite R1 in B1. rewrite R2 in B2. rewrite R3 in B3.
    repeat split; apply unit_of_byte; lia.
Qed.

Lemma hexToRgb_six_digits_witness :
  hexToRgb "#00ff88" = (IZR (0 * 16 + 0) / 255, IZR (15 * 16 + 15) / 255,
                        IZR (8 * 16 + 8) / 255).
Proof.
  apply (hexToRgb_six_digits "0" "0" "f" "f" "8" "8" 0 0 15 15 8 8);
    reflexivity.
Defined.

(** The colour of six digits that are three digits doubled, as
    [hexToRgb] computes it once the string is clean. *)
Lemma hexToRgb_of_doubled (c1 c2 c3 : ascii) (v1 v2 v3 : Z) :
  hexDigit c1 = Some v1 -> hexDigit c2 = Some v2 -> hexDigit c3 = Some v3 ->
  let d := String c1 (String c1 (String c2 (String c2 (String c3
             (String c3 EmptyString))))) in
  hexToRgb d
  = (IZR (channel (parseInt16 d) 16) / 255, IZR (channel (parseInt16 d) 8) / 255,
     IZR (channel (parseInt16 d) 0) / 255)
  /\ hexToRgb d = (IZR v1 / 15, IZR v2 / 15, IZR v3 / 15).
Proof.
  intros H1 H2 H3 d.
  destruct (hexDigit_plain _ _ H1) as [W1 E1]. destruct (hexDigit_plain _ _ H2) as [W2 E2].
  destruct (hexDigit_plain _ _ H3) as [W3 E3].
  destruct (rgb_of_six _ _ _ _ _ _ _ _ _ _ _ _ H1 H1 H2 H2 H3 H3) as (R1 & R2 & R3).
  cbn zeta in R1, R2, R3. fold d in R1, R2, R3.
  assert (Hclean : trim (removeFirst "#" d) = d).
  { subst d. cbn [removeFirst]. rewrite E1, E2, E3.
    unfold trim. cbn [trimStart]. rewrite W1. cbn [reverse trimStart].
    rewrite W3. reflexivity. }
  assert (Hd : hexToRgb d
               = (IZR (channel (parseInt16 d) 16) / 255,
                  IZR (channel (parseInt16 d) 8) / 255,
                  IZR (channel (parseInt16 d) 0) / 255)).
  { unfold hexToRgb. rewrite Hclean. subst d. cbn [String.length Nat.eqb].
    reflexivity. }
  split; [exact Hd |].
  rewrite Hd, R1, R2, R3.
  replace (v1 * 16 + v1)%Z with (17 * v1)%Z by lia.
  replace (v2 * 16 + v2)%Z with (17 * v2)%Z by lia.
  replace (v3 * 16 + v3)%Z with (17 * v3)%Z by lia.
  rewrite !mult_IZR. unfold number. f_equal; [f_equal |]; lra.
Qed.

End ColourFacts.

Section ColourFacts2.
Import JS Util.

(** X25.  Three hexadecimal digits are read as the six-digit colour
    with every digit doubled: each channel is [17 * v / 255 = v / 15]
    for its digit [v], with or without the leading [#]. *)
Theorem hexToRgb_shorthand (c1 c2 c3 : ascii) (v1 v2 v3 : Z) :
  hexDigit c1 = Some v1 -> hexDigit c2 = Some v2 -> hexDigit c3 = Some v3 ->
  let s := String c1 (String c2 (String c3 EmptyString)) in
  hexToRgb s = hexToRgb (doubleEach s)
  /\ hexToRgb (String "#" s) = hexToRgb s
  /\ hexToRgb s = (IZR v1 / 15, IZR v2 / 15, IZR v3 / 15).
Proof.
  intros H1 H2 H3 s.
  destruct (hexDigit_plain _ _ H1) as [W1 E1]. destruct (hexDigit_plain _ _ H2) as [W2 E2].
  destruct (hexDigit_plain _ _ H3) as [W3 E3].
  destruct (hexToRgb_of_doubled c1 c2 c3 v1 v2 v3 H1 H2 H3) as [D6 Dv].
  assert (Hc : trim s = s).
  { subst s. unfold trim. cbn [trimStart]. rewrite W1. cbn [reverse trimStart].
    rewrite W3. reflexivity. }
  assert (Hclean : trim (removeFirst "#" s) = s).
  { subst s. cbn [removeFirst]. rewrite E1, E2, E3. exact Hc. }
  assert (Hs : hexToRgb s = hexToRgb (doubleEach s)).
  { unfold hexToRgb at 1. rewrite Hclean. subst s.
    cbn [String.length Nat.eqb doubleEach]. symmetry. exact D6. }
  split; [exact Hs |]. split.
  - unfold hexToRgb. cbn [removeFirst Ascii.eqb Bool.eqb]. rewrite Hclean, Hc.
    reflexivity.
  - rewrite Hs. subst s. cbn [doubleEach]. exact Dv.
Qed.

Lemma hexToRgb_shorthand_witness :
  hexToRgb "#0f8" = hexToRgb "0f8".
Proof.
  apply (hexToRgb_shorthand "0" "f" "8" 0 15 8); reflexivity.
Defined.

(** X26.  Whatever string it is given, [hexToRgb] returns three
    channels of the form [k / 255] with [k] a whole number from [0] to
    [255], so each channel is in [[0, 1]]; and when [parseInt] finds no
    digit to read (NaN), the colour is black. *)
Theorem hexToRgb_always_a_colour (hex : string) :
  (exists kr kg kb : Z,
      hexToRgb hex = (IZR kr / 255, IZR kg / 255, IZR kb / 255)
      /\ (0 <= kr <= 255)%Z /\ (0 <= kg <= 255)%Z /\ (0 <= kb <= 255)%Z
      /\ 0 <= IZR kr / 255 <= 1 /\ 0 <= IZR kg / 255 <= 1
      /\ 0 <= IZR kb / 255 <= 1)
  /\ (let h := trim (removeFirst "#" hex) in
      parseInt16 (if (String.length h =? 3)%nat then doubleEach h else h) = None ->
      hexToRgb hex = (0, 0, 0)).
Proof.
  split.
  - unfold hexToRgb. cbn zeta.
    set (num := parseInt16 _).
    exists (channel num 16), (channel num 8), (channel num 0).
    pose proof (channel_range num 16). pose proof (channel_range num 8).
    pose proof (channel_range num 0).
    repeat split; try lia; try (apply unit_of_byte; assumption).
  - cbn zeta. intros HN. unfold hexToRgb. cbn zeta. rewrite HN.
    cbn. unfold number. f_equal; [f_equal |]; lra.
Qed.

Lemma hexToRgb_always_a_colour_witness : hexToRgb "#" = (0, 0, 0).
Proof.
  apply (hexToRgb_always_a_colour "#"). reflexivity.
Defined.



End ColourFacts2.
